(** * Notification aggregation bar and top navigation counter

    A shallow embedding of the client-state logic of
    [ConversationNotificationBar] (the conversation notification bar) and of
    the unread counter of [TopNavigation]
    (src/components/navigation/top-navigation.tsx).

    Conventions of the embedding:
    - a JS string is a [string]; an optional / nullable field is an [option];
    - JS truthiness, [||] and [===] are written out as boolean functions;
    - a JS [Map] is an association list in insertion order;
    - a JS number used as a counter is a [Z] (counters here stay far below
      2^53, where doubles are exact);
    - React state is a record; every handler is a function on that record,
      an [await] splits a handler into the part before it and the
      continuation that runs when the request settles;
    - a handler reads the state values of the render that created it, and
      writes through the setters; the renders that still have a button on
      screen are part of the state. *)

From Stdlib Require Import List String ZArith Bool Lia.
From Stdlib Require Import DecimalString Permutation.
Import ListNotations.
Local Open Scope string_scope.
Local Open Scope list_scope.

(** ** Data model *)

Module Conversation.
Record t := mk { type : string; name : option string }.
End Conversation.

Module Profile.
Record t := mk { name : string; imageUrl : string }.
End Profile.

Module Notification.
Record t := mk {
  id : string;
  type : string;
  read : bool;
  conversationId : option string;
  conversation : option Conversation.t;
  triggeredBy : option Profile.t;
  profileId : string
}.
End Notification.

(** The signed-in user as the authentication hook returns it; both names are
    nullable, and the user itself is absent until loaded. *)
Module User.
Record t := mk { fullName : option string; firstName : option string }.
End User.

Module ConversationParticipant.
Record t := mk {
  conversationId : string;
  profileId : string;
  name : string;
  imageUrl : string;
  unreadCount : Z;
  conversationType : string
}.
End ConversationParticipant.

Abbreviation Participant := ConversationParticipant.t.

(** ** JavaScript primitives *)

(** Truthiness of an optional string: [undefined], [null] and the empty
    string are falsy. *)
Definition truthy (o : option string) : bool :=
  match o with
  | Some s => negb (s =? "")
  | None => false
  end.

(** [o || d] on an optional string. *)
Definition or_default (o : option string) (d : string) : string :=
  match o with
  | Some s => if s =? "" then d else s
  | None => d
  end.

(** [a === b] where either side may be a string or absent. *)
Definition strict_eq (a b : option string) : bool :=
  match a, b with
  | Some x, Some y => x =? y
  | None, None => true
  | _, _ => false
  end.

(** [user?.fullName] and [user?.firstName]. *)
Definition user_fullName (u : option User.t) : option string :=
  match u with Some x => User.fullName x | None => None end.

Definition user_firstName (u : option User.t) : option string :=
  match u with Some x => User.firstName x | None => None end.

(** ** A JS [Map] keyed by strings, in insertion order *)

Module JsMap.
Section Ops.
Context {V : Type}.

Definition t := list (string * V).

Definition empty : t := [].

Fixpoint get (k : string) (m : t) : option V :=
  match m with
  | [] => None
  | (k', v) :: m' => if k' =? k then Some v else get k m'
  end.

(** [m.set(k, v)]: an existing key keeps its position, a new key goes
    last. *)
Fixpoint set (k : string) (v : V) (m : t) : t :=
  match m with
  | [] => [(k, v)]
  | (k', v') :: m' =>
      if k' =? k then (k', v) :: m' else (k', v') :: set k v m'
  end.

(** Mutation of the object stored under [k] through the reference that
    [get] returned: the entry keeps its position. *)
Fixpoint mutate (k : string) (f : V -> V) (m : t) : t :=
  match m with
  | [] => []
  | (k', v) :: m' =>
      if k' =? k then (k', f v) :: m' else (k', v) :: mutate k f m'
  end.

Definition keys (m : t) : list string := map fst m.

(** [Array.from(m.values())]. *)
Definition values (m : t) : list V := map snd m.

End Ops.
Arguments t : clear implicits.
End JsMap.

(** ** processNotifications *)

(** The filter of line 64:
    [n.conversationId && !n.read && n.type === "MESSAGE"]. *)
Definition passesFilter (n : Notification.t) : bool :=
  truthy (Notification.conversationId n)
  && negb (Notification.read n)
  && (Notification.type n =? "MESSAGE").

(** [notification.conversation?.type === "GROUP_MESSAGE"]. *)
Definition isGroup (n : Notification.t) : bool :=
  match Notification.conversation n with
  | Some c => Conversation.type c =? "GROUP_MESSAGE"
  | None => false
  end.

(** The test of line 85 once [triggeredBy] is known to be present. *)
Definition notSelf (u : option User.t) (p : Profile.t) : bool :=
  negb (strict_eq (Some (Profile.name p)) (user_fullName u))
  && negb (strict_eq (Some (Profile.name p)) (user_firstName u)).

(** [existing.unreadCount += 1]. *)
Definition bump (p : Participant) : Participant :=
  ConversationParticipant.mk
    (ConversationParticipant.conversationId p)
    (ConversationParticipant.profileId p)
    (ConversationParticipant.name p)
    (ConversationParticipant.imageUrl p)
    (ConversationParticipant.unreadCount p + 1)
    (ConversationParticipant.conversationType p).

Definition groupEntry (cid : string) (n : Notification.t) : Participant :=
  ConversationParticipant.mk
    cid
    ""
    (or_default
       (match Notification.conversation n with
        | Some c => Conversation.name c
        | None => None
        end)
       "Group Chat")
    ""
    1
    "GROUP_MESSAGE".

Definition directEntry (cid : string) (n : Notification.t) (p : Profile.t)
  : Participant :=
  ConversationParticipant.mk
    cid
    (Notification.profileId n)
    (Profile.name p)
    (Profile.imageUrl p)
    1
    "DIRECT_MESSAGE".

(** Count the notification under [cid]: bump the existing summary or insert
    the fresh one. *)
Definition upsert (cid : string) (fresh : Participant)
    (m : JsMap.t Participant) : JsMap.t Participant :=
  match JsMap.get cid m with
  | Some _ => JsMap.mutate cid bump m
  | None => JsMap.set cid fresh m
  end.

(** The body of the [forEach] callback (lines 65-101).  The filter has
    already established that [conversationId] is present; the [None] branch
    is never reached from [processNotifications]. *)
Definition visit (u : option User.t) (m : JsMap.t Participant)
    (n : Notification.t) : JsMap.t Participant :=
  match Notification.conversationId n with
  | None => m
  | Some cid =>
      if isGroup n then upsert cid (groupEntry cid n) m
      else
        match Notification.triggeredBy n with
        | Some p =>
            if notSelf u p then upsert cid (directEntry cid n p) m else m
        | None => m
        end
  end.

(** The list handed to [setParticipants] on line 103. *)
Definition processNotifications (notifications : list Notification.t)
    (user : option User.t) : list Participant :=
  JsMap.values
    (fold_left (visit user) (filter passesFilter notifications) JsMap.empty).

(** ** The component state of [ConversationNotificationBar] *)

(** How a [fetch] promise settles: it rejects on a network error, otherwise
    it resolves to a response whose [ok] flag tells a 2xx status. *)
Inductive FetchOutcome :=
| NetworkError
| Response (ok : bool).

(** The [try] block reaches [router.push] exactly when the promise resolved
    and [response.ok] holds. *)
Definition markReadSucceeded (o : FetchOutcome) : bool :=
  match o with
  | Response true => true
  | _ => false
  end.

Module Bar.

(** What the functions created in one render see of the hooks: the
    [notifications] and [user] of that render.  [processNotifications] reads
    both from its closure. *)
Record Closure := mkClosure {
  seenNotifications : list Notification.t;
  seenUser : option User.t
}.

(** A mark-read request that has been sent and has not settled, together
    with the closure of the [handleConversationClick] call awaiting it. *)
Record Request := mkRequest {
  requestConversationId : string;
  requestClosure : Closure
}.

(** What the [handleConversationClick] and the buttons created by one render
    see: the [clickingConversation] of that render, read by the guard of
    line 113 and by [disabled] on line 162, and the hooks of that render. *)
Record Render := mkRender {
  seenClicking : option string;
  seenClosure : Closure
}.

(** A button that [AnimatePresence] (lines 145-185) keeps on screen while
    its exit animation runs, after its conversation has left
    [participants].  It keeps the props, so the [onClick] and [disabled], of
    the last render that had it. *)
Record Kept := mkKept {
  keptConversationId : string;
  keptRender : Render
}.

Record State := mkState {
  notifications : list Notification.t;      (* useNotifications() *)
  user : option User.t;                     (* useUser() *)
  participants : list Participant;          (* useState, line 26 *)
  clickingConversation : option string;     (* useState, line 27 *)
  listeners : option Closure;               (* socket handlers, lines 48-50 *)
  pending : list Request;                   (* fetches awaiting an answer *)
  posted : list string;                     (* every POST body sent so far *)
  pushed : list string;                     (* every route given to router.push *)
  exiting : list Kept                       (* buttons in their exit animation *)
}.

Definition currentClosure (s : State) : Closure :=
  mkClosure (notifications s) (user s).

(** The render of the state as it is. *)
Definition currentRender (s : State) : Render :=
  mkRender (clickingConversation s) (currentClosure s).

Definition setParticipants (ps : list Participant) (s : State) : State :=
  mkState (notifications s) (user s) ps (clickingConversation s)
    (listeners s) (pending s) (posted s) (pushed s) (exiting s).

Definition setClickingConversation (c : option string) (s : State) : State :=
  mkState (notifications s) (user s) (participants s) c
    (listeners s) (pending s) (posted s) (pushed s) (exiting s).

(** [prev => prev.filter(p => p.conversationId !== conversationId)]. *)
Definition withoutConversation (conversationId : string)
    (ps : list Participant) : list Participant :=
  filter
    (fun p => negb (ConversationParticipant.conversationId p =? conversationId))
    ps.

(** [processNotifications()] called from a function of closure [c]. *)
Definition runProcessNotifications (c : Closure) (s : State) : State :=
  setParticipants
    (processNotifications (seenNotifications c) (seenUser c)) s.

(** The socket handler of lines 38-41. *)
Definition handleConversationMarkRead (conversationId profileId : string)
    (s : State) : State :=
  setParticipants (withoutConversation conversationId (participants s)) s.

(** The [fetch] of lines 122-126, awaited by a call of closure [c]. *)
Definition fetchMarkRead (c : Closure) (conversationId : string) (s : State)
    : State :=
  mkState (notifications s) (user s) (participants s)
    (clickingConversation s) (listeners s)
    (pending s ++ [mkRequest conversationId c])
    (posted s ++ [conversationId]) (pushed s) (exiting s).

(** [handleConversationClick] up to its [await] (lines 111-126), as created
    by render [r].  The guard of line 113 compares the [clickingConversation]
    that [r] saw; the two setters act on the state as it is. *)
Definition handleConversationClick (r : Render) (conversationId : string)
    (s : State) : State :=
  if strict_eq (seenClicking r) (Some conversationId) then s
  else
    fetchMarkRead (seenClosure r) conversationId
      (setParticipants
         (withoutConversation conversationId (participants s))
         (setClickingConversation (Some conversationId) s)).

Definition routerPush (route : string) (s : State) : State :=
  mkState (notifications s) (user s) (participants s)
    (clickingConversation s) (listeners s) (pending s) (posted s)
    (pushed s ++ [route]) (exiting s).

Definition conversationRoute (conversationId : string) : string :=
  String.append "/conversations/" conversationId.

Fixpoint removeAt {A : Type} (k : nat) (l : list A) : list A :=
  match l, k with
  | [], _ => []
  | _ :: l', O => l'
  | x :: l', S k' => x :: removeAt k' l'
  end.

Definition dropPending (k : nat) (s : State) : State :=
  mkState (notifications s) (user s) (participants s)
    (clickingConversation s) (listeners s) (removeAt k (pending s))
    (posted s) (pushed s) (exiting s).

(** The rest of [handleConversationClick] (lines 128-140), run when the
    request at position [k] of [pending] settles with [o]. *)
Definition resume (r : Request) (o : FetchOutcome) (s : State) : State :=
  setClickingConversation None
    (if markReadSucceeded o
     then routerPush (conversationRoute (requestConversationId r)) s
     else runProcessNotifications (requestClosure r) s).

Definition settle (k : nat) (o : FetchOutcome) (s : State) : State :=
  match nth_error (pending s) k with
  | Some r => resume r o (dropPending k s)
  | None => s
  end.

(** The effect of lines 30-57 for a connected socket: the three handlers are
    registered, closed over the current render. *)
Definition registerListeners (s : State) : State :=
  mkState (notifications s) (user s) (participants s)
    (clickingConversation s) (Some (currentClosure s)) (pending s)
    (posted s) (pushed s) (exiting s).

(** New values from [useNotifications] and [useUser], followed by the effect
    of lines 107-109. *)
Definition rerender (ns : list Notification.t) (u : option User.t)
    (s : State) : State :=
  runProcessNotifications (mkClosure ns u)
    (mkState ns u (participants s) (clickingConversation s) (listeners s)
       (pending s) (posted s) (pushed s) (exiting s)).

(** Everything that can happen to the mounted component.  [Click] is a click
    on the button that the current render shows for a conversation,
    [ClickKept] a click on a button in its exit animation, [ExitComplete]
    the end of such an animation. *)
Inductive Event :=
| Click (conversationId : string)
| Settled (k : nat) (o : FetchOutcome)
| SocketConnected
| SocketNotification
| SocketMarkedRead (conversationId profileId : string)
| HooksChanged (ns : list Notification.t) (u : option User.t)
| ClickKept (k : nat)
| ExitComplete (k : nat).

(** What the handler of an event does to the React state.  A disabled
    button is one whose render saw its own conversation in
    [clickingConversation]; its handler returns at the guard. *)
Definition react (s : State) (e : Event) : State :=
  match e with
  | Click c => handleConversationClick (currentRender s) c s
  | Settled k o => settle k o s
  | SocketConnected => registerListeners s
  | SocketNotification =>
      match listeners s with
      | Some c => runProcessNotifications c s
      | None => s
      end
  | SocketMarkedRead c p =>
      match listeners s with
      | Some _ => handleConversationMarkRead c p s
      | None => s
      end
  | HooksChanged ns u => rerender ns u s
  | ClickKept k =>
      match nth_error (exiting s) k with
      | Some b => handleConversationClick (keptRender b) (keptConversationId b) s
      | None => s
      end
  | ExitComplete _ => s
  end.

(** The last render before the summaries change: the render of the state,
    or, when the hooks change, the render with the new hook values that
    precedes the effect of lines 107-109. *)
Definition renderBefore (s : State) (e : Event) : Render :=
  match e with
  | HooksChanged ns u => mkRender (clickingConversation s) (mkClosure ns u)
  | _ => currentRender s
  end.

(** The list [ps] has a summary of conversation [c]. *)
Definition shows (ps : list Participant) (c : string) : bool :=
  existsb (fun p => ConversationParticipant.conversationId p =? c) ps.

(** The buttons in their exit animation once the summaries have changed from
    [old] to [new]: a kept button goes when its conversation is shown again,
    and the button of every conversation that is no longer shown is kept
    with the props that render [r] gave it. *)
Definition leaving (r : Render) (old new : list Participant)
    (kept : list Kept) : list Kept :=
  filter (fun b => negb (shows new (keptConversationId b))) kept
  ++ map (fun p => mkKept (ConversationParticipant.conversationId p) r)
       (filter
          (fun p => negb (shows new (ConversationParticipant.conversationId p)))
          old).

Definition setExiting (kept : list Kept) (s : State) : State :=
  mkState (notifications s) (user s) (participants s)
    (clickingConversation s) (listeners s) (pending s) (posted s) (pushed s)
    kept.

Definition step (s : State) (e : Event) : State :=
  match e with
  | ExitComplete k => setExiting (removeAt k (exiting s)) s
  | _ =>
      setExiting
        (leaving (renderBefore s e) (participants s)
           (participants (react s e)) (exiting s))
        (react s e)
  end.

Definition run (s : State) (trace : list Event) : State :=
  fold_left step trace s.

(** The component after its first render and mount effects, before the
    socket is connected. *)
Definition mounted (ns : list Notification.t) (u : option User.t) : State :=
  mkState ns u (processNotifications ns u) None None [] [] [] [].

(** Some request for [conversationId] has been sent and has not settled. *)
Definition outstanding (conversationId : string) (s : State) : bool :=
  existsb (fun r => requestConversationId r =? conversationId) (pending s).

(** The bar shows an enabled button for [conversationId] (lines 146-163). *)
Definition clickable (conversationId : string) (s : State) : bool :=
  existsb
    (fun p => ConversationParticipant.conversationId p =? conversationId)
    (participants s)
  && negb (strict_eq (clickingConversation s) (Some conversationId)).

(** A kept button is enabled by the props it keeps (line 162). *)
Definition keptEnabled (b : Kept) : bool :=
  negb (strict_eq (seenClicking (keptRender b)) (Some (keptConversationId b))).

End Bar.

(** ** The unread counter of [TopNavigation] *)

Module TopNavigation.

Record State := mkState {
  notifications : list Notification.t;   (* useState, line 42 *)
  unreadCount : Z                        (* useState, line 43 *)
}.

Definition setRead (n : Notification.t) : Notification.t :=
  Notification.mk (Notification.id n) (Notification.type n) true
    (Notification.conversationId n) (Notification.conversation n)
    (Notification.triggeredBy n) (Notification.profileId n).

(** [markAsRead] (lines 197-212).  The state is touched only after the
    [await], through functional updaters; a rejected [fetch] skips both
    updates.  The response status is not inspected. *)
Definition markAsRead (notificationId : string) (o : FetchOutcome)
    (s : State) : State :=
  match o with
  | NetworkError => s
  | Response _ =>
      mkState
        (map (fun n =>
                if Notification.id n =? notificationId then setRead n else n)
           (notifications s))
        (Z.max 0 (unreadCount s - 1))
  end.

(** [markAllAsRead] (lines 214-225). *)
Definition markAllAsRead (o : FetchOutcome) (s : State) : State :=
  match o with
  | NetworkError => s
  | Response _ => mkState (map setRead (notifications s)) 0
  end.

(** The socket handler of lines 102-104. *)
Definition handleNewNotification (n : Notification.t) (s : State) : State :=
  mkState (n :: notifications s) (unreadCount s + 1).

Inductive Call :=
| MarkAsRead (notificationId : string) (o : FetchOutcome)
| MarkAllAsRead (o : FetchOutcome)
| NewNotification (n : Notification.t).

Definition step (s : State) (c : Call) : State :=
  match c with
  | MarkAsRead i o => markAsRead i o s
  | MarkAllAsRead o => markAllAsRead o s
  | NewNotification n => handleNewNotification n s
  end.

Definition run (s : State) (calls : list Call) : State :=
  fold_left step calls s.

End TopNavigation.

(** ** What the two components render from their counters *)

(** A JS number holding an integer, converted to text as JSX and template
    strings do: decimal digits, a leading [-] below zero. *)
Definition numberToString (z : Z) : string :=
  NilZero.string_of_int (Z.to_int z).

Module BarView.

(** The unread badge of a summary (line 179):
    [participant.unreadCount > 9 ? '9+' : participant.unreadCount]. *)
Definition badgeText (p : Participant) : string :=
  if (9 <? ConversationParticipant.unreadCount p)%Z then "9+"
  else numberToString (ConversationParticipant.unreadCount p).

End BarView.

Module BellView.

(** The badge on the bell (lines 260-267): rendered only for a positive
    counter, capped at ["99+"]. *)
Definition badge (unreadCount : Z) : option string :=
  if (0 <? unreadCount)%Z
  then Some (if (99 <? unreadCount)%Z then "99+"
             else numberToString unreadCount)
  else None.

(** The "Mark all as read" button (lines 273-282) is rendered under the same
    test. *)
Definition showsMarkAll (unreadCount : Z) : bool := (0 <? unreadCount)%Z.

End BellView.

(** ** getPageInfo of [TopNavigation] *)

Inductive Icon := Hash | Users | MessageCircle.

(** The page context pushed over the socket ([page:context:update]). *)
Module PageContext.
Record t := mk {
  icon : option string;
  title : option string;
  subtitle : option string;
  avatar : option string
}.
End PageContext.

(** The [currentConversation], [currentServer] and [currentChannel] props,
    with the fields that [getPageInfo] reads. *)
Module ConversationProp.
Record t := mk { name : option string; type : string }.
End ConversationProp.

Module ServerProp.
Record t := mk { name : string; imageUrl : option string }.
End ServerProp.

Module ChannelProp.
Record t := mk { type : string; name : string }.
End ChannelProp.

Module PageInfo.
Record t := mk {
  icon : Icon;
  title : string;
  subtitle : string;
  avatar : option string
}.
End PageInfo.

(** [hay.includes(needle)]. *)
Fixpoint includes (needle hay : string) : bool :=
  if String.prefix needle hay then true
  else match hay with
       | EmptyString => false
       | String _ rest => includes needle rest
       end.

(** [pathname && pathname.includes(part)]. *)
Definition pathIncludes (pathname : option string) (part : string) : bool :=
  match pathname with
  | Some path => truthy pathname && includes part path
  | None => false
  end.

(** [getPageInfo] (lines 137-192). *)
Definition getPageInfo (pageContext : option PageContext.t)
    (currentConversation : option ConversationProp.t)
    (currentServer : option ServerProp.t)
    (currentChannel : option ChannelProp.t)
    (pathname : option string) : PageInfo.t :=
  match pageContext with
  | Some ctx =>
      PageInfo.mk
        (if strict_eq (PageContext.icon ctx) (Some "Hash") then Hash
         else if strict_eq (PageContext.icon ctx) (Some "Users") then Users
         else MessageCircle)
        (or_default (PageContext.title ctx) "Discord Clone")
        (or_default (PageContext.subtitle ctx) "")
        (PageContext.avatar ctx)
  | None =>
      match currentConversation with
      | Some conv =>
          PageInfo.mk MessageCircle
            (or_default (ConversationProp.name conv) "Conversation")
            (if ConversationProp.type conv =? "GROUP_MESSAGE"
             then "Group Chat" else "Direct Message")
            None
      | None =>
          match currentServer, currentChannel with
          | Some server, Some channel =>
              PageInfo.mk
                (if ChannelProp.type channel =? "VOICE" then Users else Hash)
                (String.append "#" (ChannelProp.name channel))
                (ServerProp.name server)
                (ServerProp.imageUrl server)
          | _, _ =>
              if pathIncludes pathname "/servers/"
              then PageInfo.mk Hash "Server Channel" "Loading..." None
              else if pathIncludes pathname "/conversations/"
              then PageInfo.mk MessageCircle "Conversation" "Loading..." None
              else PageInfo.mk Hash "Discord Clone" "Welcome" None
          end
      end
  end.

(** The bar is not rendered on the root and loading pages (lines 46-49). *)
Definition hiddenOn (pathname : option string) : bool :=
  strict_eq pathname (Some "/") || strict_eq pathname (Some "/loading").

(** * Vocabulary of the statements *)

(** Every entry of the map is filed under its own [conversationId] and has
    counted at least one notification. *)
Definition entryOk (e : string * Participant) : Prop :=
  ConversationParticipant.conversationId (snd e) = fst e
  /\ (1 <= ConversationParticipant.unreadCount (snd e))%Z.

Definition wellFormed (m : JsMap.t Participant) : Prop :=
  NoDup (JsMap.keys m) /\ Forall entryOk m.

(** The sender of a direct message is somebody else: [triggeredBy] is
    present and its name is neither the user's full name nor first name. *)
Definition senderIsOther (u : option User.t) (n : Notification.t) : Prop :=
  exists p, Notification.triggeredBy n = Some p
            /\ Some (Profile.name p) <> user_fullName u
            /\ Some (Profile.name p) <> user_firstName u.

(** The conversation under which [processNotifications] counts a
    notification, if it counts it at all: the notification passes the
    filter, and it is a group message or a direct message of another
    sender. *)
Definition countedUnder (u : option User.t) (n : Notification.t)
    : option string :=
  if passesFilter n
     && (isGroup n
         || match Notification.triggeredBy n with
            | Some p => notSelf u p
            | None => false
            end)
  then Notification.conversationId n
  else None.

(** The conversations of the counted notifications, one per counted
    notification, in the order of the input. *)
Definition countedIds (u : option User.t) (ns : list Notification.t)
    : list string :=
  flat_map
    (fun n => match countedUnder u n with Some c => [c] | None => [] end)
    ns.

(** Order of first occurrence, written as the specification words it: each
    element stays where it occurs first, later repetitions are dropped. *)
Fixpoint firstOccurrences (l : list string) : list string :=
  match l with
  | [] => []
  | x :: l' => x :: filter (fun y => negb (y =? x)) (firstOccurrences l')
  end.

(** [y] is not among [seen]. *)
Definition unseen (seen : list string) (y : string) : bool :=
  negb (existsb (String.eqb y) seen).

(** Position of the first occurrence of [x] in [l]. *)
Fixpoint firstIndex (x : string) (l : list string) : option nat :=
  match l with
  | [] => None
  | y :: l' =>
      if y =? x then Some O
      else match firstIndex x l' with
           | Some i => Some (S i)
           | None => None
           end
  end.

(** The map after the notifications counted under [ids] have been visited:
    every counted conversation has an entry, and every entry has counted the
    occurrences of its key. *)
Definition countsOf (ids : list string) (m : JsMap.t Participant) : Prop :=
  (forall k, In k ids -> In k (JsMap.keys m))
  /\ Forall
       (fun e =>
          ConversationParticipant.unreadCount (snd e)
          = Z.of_nat (count_occ string_dec ids (fst e)))
       m.

(** An event other than the successful settlement of a request. *)
Definition noSuccess (e : Bar.Event) : bool :=
  match e with
  | Bar.Settled _ o => negb (markReadSucceeded o)
  | _ => true
  end.

(** A summary with another count. *)
Definition withCount (k : Z) (p : Participant) : Participant :=
  ConversationParticipant.mk
    (ConversationParticipant.conversationId p)
    (ConversationParticipant.profileId p)
    (ConversationParticipant.name p)
    (ConversationParticipant.imageUrl p)
    k
    (ConversationParticipant.conversationType p).

(** The summary that [visit] inserts for a notification of a conversation
    that has none yet. *)
Definition firstEntry (c : string) (n : Notification.t)
    : option Participant :=
  if isGroup n then Some (groupEntry c n)
  else match Notification.triggeredBy n with
       | Some p => Some (directEntry c n p)
       | None => None
       end.

(** The number of notifications counted under [c]. *)
Definition countedFor (u : option User.t) (c : string)
    (ns : list Notification.t) : nat :=
  List.length
    (filter (fun n => strict_eq (countedUnder u n) (Some c)) ns).

(** What a summary of either kind looks like, whatever its count. *)
Definition summaryShape (u : option User.t) (p : Participant) : Prop :=
  (ConversationParticipant.conversationType p = "GROUP_MESSAGE"
   /\ ConversationParticipant.profileId p = ""
   /\ ConversationParticipant.imageUrl p = ""
   /\ ConversationParticipant.name p <> "")
  \/ (ConversationParticipant.conversationType p = "DIRECT_MESSAGE"
      /\ Some (ConversationParticipant.name p) <> user_fullName u
      /\ Some (ConversationParticipant.name p) <> user_firstName u).

(** The summaries on display have distinct conversations and positive
    counts. *)
Definition distinctPositive (ps : list Participant) : Prop :=
  NoDup (map ConversationParticipant.conversationId ps)
  /\ Forall (fun p => (1 <= ConversationParticipant.unreadCount p)%Z) ps.

(** Events that leave the hooks, respectively the socket handlers, as they
    are. *)
Definition keepsHooks (e : Bar.Event) : bool :=
  match e with
  | Bar.HooksChanged _ _ => false
  | _ => true
  end.

Definition keepsListeners (e : Bar.Event) : bool :=
  match e with
  | Bar.SocketConnected => false
  | _ => true
  end.

(** Every closure alive in the state was created while the hooks returned
    [ns] and [u]. *)
Definition closuresSee (ns : list Notification.t) (u : option User.t)
    (s : Bar.State) : Prop :=
  Bar.notifications s = ns
  /\ Bar.user s = u
  /\ (forall c, Bar.listeners s = Some c -> c = Bar.mkClosure ns u)
  /\ Forall (fun r => Bar.requestClosure r = Bar.mkClosure ns u)
       (Bar.pending s)
  /\ Forall
       (fun b => Bar.seenClosure (Bar.keptRender b) = Bar.mkClosure ns u)
       (Bar.exiting s).

(** The number of unread notifications of the dropdown list. *)
Definition unreadIn (l : list Notification.t) : nat :=
  List.length (filter (fun n => negb (Notification.read n)) l).

(** The counter on the bell agrees with the list. *)
Definition inSync (s : TopNavigation.State) : Prop :=
  TopNavigation.unreadCount s
  = Z.of_nat (unreadIn (TopNavigation.notifications s)).

(** Requests and navigations add up: every request still awaited and every
    navigation goes back to a request that was sent, and together they do
    not outnumber the requests sent. *)
Definition accounted (s : Bar.State) : Prop :=
  List.length (Bar.pushed s) + List.length (Bar.pending s)
  <= List.length (Bar.posted s)
  /\ (forall r, In r (Bar.pending s) ->
                In (Bar.requestConversationId r) (Bar.posted s))
  /\ (forall x, In x (Bar.pushed s) ->
                exists c, In c (Bar.posted s) /\ x = Bar.conversationRoute c).

(** ** Sample data *)

Definition alice : Profile.t := Profile.mk "Alice" "/img/alice.png".
Definition bob : Profile.t := Profile.mk "Bob" "/img/bob.png".
Definition carol : User.t := User.mk (Some "Carol Jones") (Some "Carol").

Definition directNote (i c : string) (p : Profile.t) (pid : string)
    : Notification.t :=
  Notification.mk i "MESSAGE" false (Some c)
    (Some (Conversation.mk "DIRECT_MESSAGE" None)) (Some p) pid.

Definition groupNote (i c : string) (name : option string) : Notification.t :=
  Notification.mk i "MESSAGE" false (Some c)
    (Some (Conversation.mk "GROUP_MESSAGE" name)) None "p0".

(** One unread direct message in each of two conversations. *)
Definition twoChats : list Notification.t :=
  [directNote "1" "c1" alice "pa"; directNote "2" "c2" bob "pb"].

(** * Properties *)

(** ** The insertion-ordered map *)

Section JsMapFacts.
Context {V : Type}.
Implicit Types (m : JsMap.t V) (k : string) (v : V).

Lemma get_none_iff k m : JsMap.get k m = None <-> ~ In k (JsMap.keys m).
Proof.
  induction m as [|[k' v'] m IH]; simpl.
  - tauto.
  - destruct (String.eqb_spec k' k) as [->|Hne].
    + split; [discriminate | intros H; exfalso; apply H; now left].
    + rewrite IH. split.
      * intros H [E|HIn]; [now apply Hne | now apply H].
      * intros H HIn. apply H. now right.
Qed.

Lemma get_some_in k m v : JsMap.get k m = Some v -> In k (JsMap.keys m).
Proof.
  intros H. destruct (in_dec string_dec k (JsMap.keys m)) as [HIn|HnIn].
  - exact HIn.
  - apply get_none_iff in HnIn. congruence.
Qed.

Lemma keys_mutate k f m : JsMap.keys (JsMap.mutate k f m) = JsMap.keys m.
Proof.
  induction m as [|[k' v'] m IH]; simpl.
  - reflexivity.
  - destruct (k' =? k); simpl; [reflexivity | now f_equal].
Qed.

Lemma set_fresh k v m : JsMap.get k m = None -> JsMap.set k v m = m ++ [(k, v)].
Proof.
  induction m as [|[k' v'] m IH]; simpl.
  - reflexivity.
  - destruct (k' =? k); [discriminate | intros H; now rewrite IH].
Qed.

Lemma keys_set_fresh k v m :
  JsMap.get k m = None -> JsMap.keys (JsMap.set k v m) = JsMap.keys m ++ [k].
Proof.
  intros H. rewrite (set_fresh _ _ _ H). unfold JsMap.keys.
  now rewrite map_app.
Qed.

Lemma mutate_forall (P : string * V -> Prop) k f m :
  (forall v, P (k, v) -> P (k, f v)) ->
  Forall P m -> Forall P (JsMap.mutate k f m).
Proof.
  intros Hf. induction m as [|[k' v'] m IH]; simpl; intros H.
  - constructor.
  - inversion H as [|? ? Hhd Htl]; subst.
    destruct (String.eqb_spec k' k) as [->|Hne]; constructor; auto.
Qed.

End JsMapFacts.

(** ** The aggregation invariant *)

Lemma wellFormed_empty : wellFormed JsMap.empty.
Proof. split; constructor. Qed.

Lemma upsert_wellFormed cid fresh m :
  ConversationParticipant.conversationId fresh = cid ->
  ConversationParticipant.unreadCount fresh = 1%Z ->
  wellFormed m -> wellFormed (upsert cid fresh m).
Proof.
  intros Hid Hcount [Hnd Hall]. unfold upsert.
  destruct (JsMap.get cid m) eqn:Hget.
  - split.
    + now rewrite keys_mutate.
    + apply mutate_forall; [|exact Hall].
      intros v [Hk Hc]. unfold entryOk in *. simpl in *. split; [exact Hk | lia].
  - split.
    + rewrite (keys_set_fresh _ _ _ Hget).
      apply NoDup_app; [exact Hnd | repeat constructor; auto |].
      intros x HIn [<-|[]]. now apply get_none_iff in Hget.
    + rewrite (set_fresh _ _ _ Hget). apply Forall_app. split; [exact Hall|].
      constructor; [|constructor]. unfold entryOk. simpl. split; [exact Hid | lia].
Qed.

Lemma visit_wellFormed u m n : wellFormed m -> wellFormed (visit u m n).
Proof.
  intros Hwf. unfold visit.
  destruct (Notification.conversationId n) as [cid|]; [|exact Hwf].
  destruct (isGroup n).
  - now apply upsert_wellFormed.
  - destruct (Notification.triggeredBy n) as [p|]; [|exact Hwf].
    destruct (notSelf u p); [|exact Hwf].
    now apply upsert_wellFormed.
Qed.

Lemma fold_visit_wellFormed u l m :
  wellFormed m -> wellFormed (fold_left (visit u) l m).
Proof.
  revert m. induction l as [|n l IH]; simpl; intros m Hwf.
  - exact Hwf.
  - apply IH. now apply visit_wellFormed.
Qed.

Lemma wellFormed_ids m :
  Forall entryOk m ->
  map ConversationParticipant.conversationId (JsMap.values m) = JsMap.keys m.
Proof.
  induction 1 as [|[k v] m [Hk _] _ IH]; simpl.
  - reflexivity.
  - simpl in Hk. now rewrite Hk, IH.
Qed.

(** C1. For every notification list and current user, the summaries produced
    by [processNotifications] carry pairwise distinct [conversationId]s, and
    every summary has an [unreadCount] of at least 1. *)
Theorem processNotifications_unique_positive
    (ns : list Notification.t) (u : option User.t) :
  NoDup (map ConversationParticipant.conversationId (processNotifications ns u))
  /\ Forall (fun p => (1 <= ConversationParticipant.unreadCount p)%Z)
       (processNotifications ns u).
Proof.
  unfold processNotifications.
  destruct (fold_visit_wellFormed u (filter passesFilter ns) JsMap.empty
              wellFormed_empty) as [Hnd Hall].
  split.
  - now rewrite wellFormed_ids.
  - unfold JsMap.values. apply Forall_map.
    eapply Forall_impl; [|exact Hall]. intros e [_ H]. exact H.
Qed.

(** ** Which notifications are counted, and under which key *)

Lemma strict_eq_iff a b : strict_eq a b = true <-> a = b.
Proof.
  destruct a as [x|], b as [y|]; simpl;
    try (split; [discriminate | congruence]); try tauto.
  rewrite String.eqb_eq. split; congruence.
Qed.

Lemma notSelf_iff u p :
  notSelf u p = true
  <-> Some (Profile.name p) <> user_fullName u
      /\ Some (Profile.name p) <> user_firstName u.
Proof.
  unfold notSelf. rewrite andb_true_iff, !negb_true_iff.
  rewrite <- !not_true_iff_false, !strict_eq_iff. tauto.
Qed.

Lemma visit_not_other u m n :
  isGroup n = false -> ~ senderIsOther u n -> visit u m n = m.
Proof.
  intros Hg Hno. unfold visit.
  destruct (Notification.conversationId n) as [cid|]; [|reflexivity].
  rewrite Hg.
  destruct (Notification.triggeredBy n) as [p|] eqn:Htb; [|reflexivity].
  destruct (notSelf u p) eqn:Hns; [|reflexivity].
  exfalso. apply Hno. exists p. split; [exact Htb | now apply notSelf_iff].
Qed.

Lemma fold_visit_drop u before n after m :
  (passesFilter n = true -> forall m', visit u m' n = m') ->
  fold_left (visit u) (filter passesFilter (before ++ n :: after)) m
  = fold_left (visit u) (filter passesFilter (before ++ after)) m.
Proof.
  intros Hskip. rewrite !filter_app, !fold_left_app. simpl.
  destruct (passesFilter n) eqn:Hp; [|reflexivity].
  simpl. now rewrite Hskip.
Qed.

(** C6. A notification whose type is not [MESSAGE], or that is read, or that
    has no [conversationId], contributes nothing: the summaries are those of
    the list without it, counts included. *)
Theorem filtered_out_contributes_nothing
    (u : option User.t) (before after : list Notification.t)
    (n : Notification.t) :
  Notification.type n <> "MESSAGE"
  \/ Notification.read n = true
  \/ Notification.conversationId n = None ->
  processNotifications (before ++ n :: after) u
  = processNotifications (before ++ after) u.
Proof.
  intros H. unfold processNotifications. f_equal.
  apply fold_visit_drop. intros Hp. exfalso.
  unfold passesFilter in Hp.
  apply andb_true_iff in Hp as [Hp Ht]. apply andb_true_iff in Hp as [Hc Hr].
  destruct H as [H|[H|H]].
  - apply H. now apply String.eqb_eq.
  - rewrite H in Hr. discriminate.
  - rewrite H in Hc. discriminate.
Qed.

(** C5. A direct-message notification is counted only if [triggeredBy] is
    present and its name differs from the user's full name and first name;
    otherwise the result is that of the list without the notification.  In
    particular this is so when the sender's name is the user's first name. *)
Theorem direct_message_counted_only_if_other
    (u : option User.t) (before after : list Notification.t)
    (n : Notification.t) :
  isGroup n = false ->
  (~ senderIsOther u n ->
   processNotifications (before ++ n :: after) u
   = processNotifications (before ++ after) u)
  /\ (forall p, Notification.triggeredBy n = Some p ->
                user_firstName u = Some (Profile.name p) ->
                processNotifications (before ++ n :: after) u
                = processNotifications (before ++ after) u).
Proof.
  intros Hg.
  assert (Hmain : ~ senderIsOther u n ->
                  processNotifications (before ++ n :: after) u
                  = processNotifications (before ++ after) u).
  { intros Hno. unfold processNotifications. f_equal.
    apply fold_visit_drop. intros _ m'. now apply visit_not_other. }
  split; [exact Hmain|].
  intros p Htb Hfirst. apply Hmain.
  intros [q [Hq [_ Hne]]]. rewrite Htb in Hq. injection Hq as <-.
  now rewrite Hfirst in Hne.
Qed.

(** C4. Two unread [MESSAGE] notifications of one group conversation give
    exactly one summary: kind [GROUP_MESSAGE], the conversation name of the
    first notification or ["Group Chat"] when that name is absent or empty,
    no profile and no avatar, and an [unreadCount] of 2. *)
Theorem two_group_messages_one_summary
    (u : option User.t) (n1 n2 : Notification.t) (cid : string)
    (c1 c2 : Conversation.t) :
  cid <> "" ->
  Notification.conversationId n1 = Some cid ->
  Notification.conversationId n2 = Some cid ->
  Notification.read n1 = false -> Notification.read n2 = false ->
  Notification.type n1 = "MESSAGE" -> Notification.type n2 = "MESSAGE" ->
  Notification.conversation n1 = Some c1 ->
  Notification.conversation n2 = Some c2 ->
  Conversation.type c1 = "GROUP_MESSAGE" ->
  Conversation.type c2 = "GROUP_MESSAGE" ->
  exists displayName,
    processNotifications [n1; n2] u
    = [ConversationParticipant.mk cid "" displayName "" 2 "GROUP_MESSAGE"]
    /\ (Conversation.name c1 = None \/ Conversation.name c1 = Some "" ->
        displayName = "Group Chat")
    /\ (forall s, Conversation.name c1 = Some s -> s <> "" -> displayName = s).
Proof.
  intros Hne Hc1 Hc2 Hr1 Hr2 Ht1 Ht2 Hv1 Hv2 Hg1 Hg2.
  exists (or_default (Conversation.name c1) "Group Chat").
  split; [|split].
  - unfold processNotifications, passesFilter. simpl.
    rewrite Hc1, Hc2, Hr1, Hr2, Ht1, Ht2. simpl.
    apply String.eqb_neq in Hne. rewrite Hne. simpl.
    unfold visit, isGroup. rewrite Hc1, Hc2, Hv1, Hv2, Hg1, Hg2. simpl.
    unfold upsert. simpl. rewrite String.eqb_refl. simpl.
    unfold groupEntry, bump. simpl. now rewrite Hv1.
  - intros [H|H]; rewrite H; reflexivity.
  - intros s H Hs. rewrite H. simpl. apply String.eqb_neq in Hs.
    now rewrite Hs.
Qed.

(** ** Output order *)

Lemma filter_filter_and {A : Type} (f g : A -> bool) (l : list A) :
  filter f (filter g l) = filter (fun x => g x && f x) l.
Proof.
  induction l as [|x l IH]; simpl; [reflexivity|].
  destruct (g x); simpl; [destruct (f x)|]; now rewrite IH.
Qed.

Lemma unseen_nil y : unseen [] y = true.
Proof. reflexivity. Qed.

Lemma unseen_iff seen y : unseen seen y = true <-> ~ In y seen.
Proof.
  unfold unseen. rewrite negb_true_iff, <- not_true_iff_false, existsb_exists.
  split.
  - intros H HIn. apply H. exists y. split; [exact HIn | apply String.eqb_refl].
  - intros H [x [HIn Heq]]. apply String.eqb_eq in Heq. subst. now apply H.
Qed.

Lemma filter_unseen_snoc seen c (l : list string) :
  filter (unseen (seen ++ [c])) l
  = filter (unseen seen) (filter (fun y => negb (y =? c)) l).
Proof.
  rewrite filter_filter_and. apply filter_ext. intros y.
  unfold unseen. rewrite existsb_app. simpl.
  rewrite orb_false_r, negb_orb. apply andb_comm.
Qed.

Lemma filter_unseen_absorb seen c (l : list string) :
  In c seen ->
  filter (unseen seen) (filter (fun y => negb (y =? c)) l)
  = filter (unseen seen) l.
Proof.
  intros HIn. rewrite filter_filter_and. apply filter_ext. intros y.
  destruct (String.eqb_spec y c) as [->|Hne]; simpl; [|reflexivity].
  symmetry. apply not_true_iff_false. rewrite unseen_iff. tauto.
Qed.

Lemma keys_upsert cid fresh m :
  JsMap.keys (upsert cid fresh m)
  = if unseen (JsMap.keys m) cid then JsMap.keys m ++ [cid] else JsMap.keys m.
Proof.
  unfold upsert. destruct (JsMap.get cid m) eqn:Hget.
  - rewrite keys_mutate. apply get_some_in in Hget.
    destruct (unseen (JsMap.keys m) cid) eqn:Hu; [|reflexivity].
    apply unseen_iff in Hu. contradiction.
  - rewrite (keys_set_fresh _ _ _ Hget). apply get_none_iff in Hget.
    apply unseen_iff in Hget. now rewrite Hget.
Qed.

(** One iteration of the loop: a counted notification is upserted under its
    conversation, any other leaves the map alone. *)
Lemma visit_counted u m n :
  passesFilter n = true ->
  match countedUnder u n with
  | Some cid =>
      exists fresh,
        visit u m n = upsert cid fresh m
        /\ ConversationParticipant.conversationId fresh = cid
        /\ ConversationParticipant.unreadCount fresh = 1%Z
  | None => visit u m n = m
  end.
Proof.
  intros Hp. unfold countedUnder, visit. rewrite Hp. simpl.
  assert (Hc : truthy (Notification.conversationId n) = true).
  { unfold passesFilter in Hp. now rewrite !andb_true_iff in Hp. }
  destruct (Notification.conversationId n) as [cid|]; [|discriminate].
  destruct (isGroup n); simpl.
  - now exists (groupEntry cid n).
  - destruct (Notification.triggeredBy n) as [p|]; [|reflexivity].
    destruct (notSelf u p); [|reflexivity].
    now exists (directEntry cid n p).
Qed.

Lemma keys_visit u m n :
  passesFilter n = true ->
  JsMap.keys (visit u m n)
  = match countedUnder u n with
    | Some cid =>
        if unseen (JsMap.keys m) cid then JsMap.keys m ++ [cid]
        else JsMap.keys m
    | None => JsMap.keys m
    end.
Proof.
  intros Hp. pose proof (visit_counted u m n Hp) as Hv.
  destruct (countedUnder u n) as [cid|].
  - destruct Hv as [fresh [-> _]]. apply keys_upsert.
  - now rewrite Hv.
Qed.

Lemma countedUnder_filtered u n :
  passesFilter n = false -> countedUnder u n = None.
Proof. intros H. unfold countedUnder. now rewrite H. Qed.

Lemma keys_fold_visit u ns m :
  JsMap.keys (fold_left (visit u) (filter passesFilter ns) m)
  = JsMap.keys m
    ++ filter (unseen (JsMap.keys m)) (firstOccurrences (countedIds u ns)).
Proof.
  revert m. induction ns as [|n ns IH]; intros m; simpl.
  - now rewrite app_nil_r.
  - destruct (passesFilter n) eqn:Hp.
    + simpl. rewrite IH, (keys_visit _ _ _ Hp).
      destruct (countedUnder u n) as [cid|]; simpl; [|reflexivity].
      destruct (unseen (JsMap.keys m) cid) eqn:Hu.
      * rewrite filter_unseen_snoc, <- app_assoc. reflexivity.
      * rewrite filter_unseen_absorb; [reflexivity|].
        destruct (in_dec string_dec cid (JsMap.keys m)) as [HIn|HnIn];
          [exact HIn|].
        apply unseen_iff in HnIn. congruence.
    + rewrite IH, (countedUnder_filtered _ _ Hp). reflexivity.
Qed.

Lemma filter_all_true {A : Type} (f : A -> bool) (l : list A) :
  (forall x, f x = true) -> filter f l = l.
Proof.
  intros H. induction l as [|x l IH]; simpl; [reflexivity|].
  now rewrite H, IH.
Qed.

Lemma firstOccurrences_in l x : In x (firstOccurrences l) <-> In x l.
Proof.
  induction l as [|z l IH]; simpl; [tauto|].
  rewrite filter_In, IH, negb_true_iff, String.eqb_neq.
  destruct (string_dec z x) as [->|Hne]; [tauto|].
  split; [tauto|]. intros [E|H]; [contradiction|].
  right. split; [exact H | congruence].
Qed.

Lemma firstIndex_in l x : In x l -> exists i, firstIndex x l = Some i.
Proof.
  induction l as [|z l IH]; simpl; [tauto|]. intros H.
  destruct (String.eqb_spec z x) as [->|Hne]; [now exists O|].
  destruct H as [E|H]; [contradiction|].
  destruct (IH H) as [i Hi]. rewrite Hi. now exists (S i).
Qed.

Lemma filter_split {A : Type} (f : A -> bool) (l p q : list A) (x : A) :
  filter f l = p ++ x :: q ->
  exists p' q', l = p' ++ x :: q' /\ f x = true /\ filter f q' = q.
Proof.
  revert p. induction l as [|h t IH]; simpl; intros p H.
  - now destruct p.
  - destruct (f h) eqn:Hh.
    + destruct p as [|h' p]; simpl in H; injection H as -> H.
      * exists [], t. auto.
      * destruct (IH _ H) as [p' [q' [-> [Hx Hq]]]].
        exists (h' :: p'), q'. auto.
    + destruct (IH _ H) as [p' [q' [-> [Hx Hq]]]].
      exists (h :: p'), q'. auto.
Qed.

(** Whatever precedes [y] in [firstOccurrences l] occurs in [l] for the
    first time before [y] does. *)
Lemma firstOccurrences_sorted l p x q y :
  firstOccurrences l = p ++ x :: q -> In y q ->
  exists a b,
    firstIndex x l = Some a /\ firstIndex y l = Some b /\ a < b.
Proof.
  revert p x q y. induction l as [|z l IH]; simpl; intros p x q y H Hy.
  - now destruct p.
  - destruct p as [|z' p]; simpl in H; injection H as -> H.
    + rewrite String.eqb_refl. subst q.
      apply filter_In in Hy as [Hy Hne].
      apply negb_true_iff in Hne. rewrite String.eqb_sym in Hne.
      rewrite Hne. apply (proj1 (firstOccurrences_in _ _)) in Hy.
      apply firstIndex_in in Hy.
      destruct Hy as [b ->]. exists O, (S b). repeat split. lia.
    + destruct (filter_split _ _ _ _ _ H) as [p' [q' [Hl [Hx Hq]]]].
      subst q. apply filter_In in Hy as [Hy Hyz].
      destruct (IH _ _ _ _ Hl Hy) as [a [b [Ha [Hb Hab]]]].
      apply negb_true_iff in Hx, Hyz.
      rewrite String.eqb_sym in Hx. rewrite String.eqb_sym in Hyz.
      rewrite Hx, Hyz, Ha, Hb. exists (S a), (S b). repeat split. lia.
Qed.

(** C7. The summaries come in the order in which their conversations are
    first counted in the input list, and in no other order: the
    conversations of the output are those of the counted notifications,
    each at its first occurrence, and a summary that comes before another
    is first counted at an earlier position of the input. *)
Theorem processNotifications_order
    (ns : list Notification.t) (u : option User.t) :
  map ConversationParticipant.conversationId (processNotifications ns u)
  = firstOccurrences (countedIds u ns)
  /\ (forall p x q y,
        map ConversationParticipant.conversationId (processNotifications ns u)
        = p ++ x :: q ->
        In y q ->
        exists a b,
          firstIndex x (countedIds u ns) = Some a
          /\ firstIndex y (countedIds u ns) = Some b
          /\ a < b).
Proof.
  assert (E : map ConversationParticipant.conversationId
                (processNotifications ns u)
              = firstOccurrences (countedIds u ns)).
  { unfold processNotifications.
    rewrite wellFormed_ids
      by apply (fold_visit_wellFormed u _ _ wellFormed_empty).
    rewrite keys_fold_visit. simpl.
    apply filter_all_true. intros x. apply unseen_nil. }
  split; [exact E|].
  intros p x q y H Hy. rewrite E in H.
  now apply (firstOccurrences_sorted _ _ _ _ _ H).
Qed.

(** ** Counts *)

Lemma count_occ_snoc (ids : list string) (c k : string) :
  count_occ string_dec (ids ++ [c]) k
  = count_occ string_dec ids k + (if string_dec c k then 1 else 0).
Proof. rewrite count_occ_app. simpl. now destruct (string_dec c k). Qed.

(** With distinct keys, [mutate] touches the one entry filed under [k]. *)
Lemma mutate_as_map {V : Type} (k : string) (f : V -> V) (m : JsMap.t V) :
  NoDup (JsMap.keys m) ->
  JsMap.mutate k f m
  = map (fun e => if fst e =? k then (fst e, f (snd e)) else e) m.
Proof.
  induction m as [|[k' v] m IH]; simpl; intros Hnd; [reflexivity|].
  inversion Hnd as [|? ? Hnin Hnd']; subst.
  destruct (String.eqb_spec k' k) as [->|Hne]; f_equal.
  - clear IH Hnd Hnd'. induction m as [|[k2 v2] m IH]; simpl; [reflexivity|].
    simpl in Hnin. destruct (String.eqb_spec k2 k) as [->|_].
    + exfalso. apply Hnin. now left.
    + f_equal. apply IH. tauto.
  - now apply IH.
Qed.

Lemma upsert_countsOf ids cid fresh m :
  ConversationParticipant.unreadCount fresh = 1%Z ->
  NoDup (JsMap.keys m) ->
  countsOf ids m -> countsOf (ids ++ [cid]) (upsert cid fresh m).
Proof.
  intros Hone Hnd [Hdom Hcnt]. unfold upsert.
  destruct (JsMap.get cid m) eqn:Hget.
  - split.
    + rewrite keys_mutate. intros k Hk. apply in_app_or in Hk as [Hk|[<-|[]]].
      * now apply Hdom.
      * eapply get_some_in, Hget.
    + rewrite (mutate_as_map _ _ _ Hnd). apply Forall_map.
      eapply Forall_impl; [|exact Hcnt]. intros [k v] Hkv. simpl in *.
      rewrite count_occ_snoc.
      destruct (String.eqb_spec k cid) as [->|Hne]; simpl.
      * destruct (string_dec cid cid); [lia | contradiction].
      * destruct (string_dec cid k); [congruence | lia].
  - apply get_none_iff in Hget as Hfresh.
    rewrite (set_fresh _ _ _ Hget). split.
    + unfold JsMap.keys. rewrite map_app. simpl. intros k Hk.
      apply in_app_or in Hk as [Hk|Hk]; apply in_or_app; [left | now right].
      now apply Hdom.
    + apply Forall_app. split.
      * rewrite Forall_forall in *. intros [k v] He.
        pose proof (Hcnt _ He) as Hkv. simpl in *.
        rewrite count_occ_snoc, Hkv.
        destruct (string_dec cid k) as [<-|_]; [|lia].
        exfalso. apply Hfresh. apply in_map_iff. now exists (cid, v).
      * constructor; [|constructor]. simpl. rewrite count_occ_snoc, Hone.
        rewrite (proj1 (count_occ_not_In string_dec ids cid)) by auto.
        destruct (string_dec cid cid); [reflexivity | contradiction].
Qed.

Lemma fold_visit_countsOf u ns m pre :
  wellFormed m -> countsOf pre m ->
  countsOf (pre ++ countedIds u ns)
    (fold_left (visit u) (filter passesFilter ns) m).
Proof.
  revert m pre. induction ns as [|n ns IH]; intros m pre Hwf Hc; simpl.
  - now rewrite app_nil_r.
  - destruct (passesFilter n) eqn:Hp.
    + simpl. pose proof (visit_counted u m n Hp) as Hv.
      pose proof (visit_wellFormed u m n Hwf) as Hwf'.
      destruct (countedUnder u n) as [cid|].
      * destruct Hv as [fresh [Hv [_ Hone]]].
        replace (pre ++ [cid] ++ countedIds u ns)
          with ((pre ++ [cid]) ++ countedIds u ns)
          by now rewrite <- app_assoc.
        apply IH; [exact Hwf'|]. rewrite Hv.
        apply upsert_countsOf; [exact Hone | apply Hwf | exact Hc].
      * rewrite Hv. now apply IH.
    + rewrite (countedUnder_filtered _ _ Hp). now apply IH.
Qed.

(** The [unreadCount] of a summary is the number of counted notifications
    of its conversation. *)
Lemma processNotifications_counts ns u p :
  In p (processNotifications ns u) ->
  ConversationParticipant.unreadCount p
  = Z.of_nat
      (count_occ string_dec (countedIds u ns)
         (ConversationParticipant.conversationId p)).
Proof.
  unfold processNotifications, JsMap.values. intros HIn.
  apply in_map_iff in HIn as [[k v] [<- He]]. simpl.
  destruct (fold_visit_wellFormed u (filter passesFilter ns) JsMap.empty
              wellFormed_empty) as [_ Hok].
  destruct (fold_visit_countsOf u ns JsMap.empty [] wellFormed_empty)
    as [_ Hcnt].
  { split; [intros k' [] | constructor]. }
  rewrite Forall_forall in Hok, Hcnt.
  destruct (Hok _ He) as [Hk _]. simpl in Hk. rewrite Hk.
  exact (Hcnt _ He).
Qed.

(** A counted notification is summarised. *)
Lemma counted_is_summarised ns u n c :
  In n ns -> countedUnder u n = Some c ->
  In c (map ConversationParticipant.conversationId
          (processNotifications ns u)).
Proof.
  intros HIn Hc. unfold processNotifications.
  rewrite wellFormed_ids
    by apply (fold_visit_wellFormed u _ _ wellFormed_empty).
  rewrite keys_fold_visit. simpl.
  rewrite filter_all_true by (intros x; apply unseen_nil).
  apply firstOccurrences_in. unfold countedIds. apply in_flat_map.
  exists n. split; [exact HIn|]. rewrite Hc. now left.
Qed.

(** ** The socket handler for [conversation:marked-as-read] *)

Lemma withoutConversation_forall c ps :
  Forall (fun p => ConversationParticipant.conversationId p <> c)
    (Bar.withoutConversation c ps).
Proof.
  unfold Bar.withoutConversation. apply Forall_forall. intros p HIn.
  apply filter_In in HIn as [_ H]. apply negb_true_iff in H.
  now apply String.eqb_neq.
Qed.

Lemma withoutConversation_in c ps p :
  ConversationParticipant.conversationId p <> c ->
  In p (Bar.withoutConversation c ps) <-> In p ps.
Proof.
  intros Hne. unfold Bar.withoutConversation. rewrite filter_In.
  apply String.eqb_neq in Hne. rewrite Hne. simpl. tauto.
Qed.

Lemma withoutConversation_absent c ps :
  (forall p, In p ps -> ConversationParticipant.conversationId p <> c) ->
  Bar.withoutConversation c ps = ps.
Proof.
  intros H. unfold Bar.withoutConversation.
  induction ps as [|p ps IH]; simpl; [reflexivity|].
  assert (Hp : ConversationParticipant.conversationId p <> c)
    by (apply H; now left).
  apply String.eqb_neq in Hp. rewrite Hp. simpl. f_equal.
  apply IH. intros q Hq. apply H. now right.
Qed.

Lemma withoutConversation_idem c ps :
  Bar.withoutConversation c (Bar.withoutConversation c ps)
  = Bar.withoutConversation c ps.
Proof.
  apply withoutConversation_absent. intros p HIn.
  pose proof (withoutConversation_forall c ps) as H.
  rewrite Forall_forall in H. now apply H.
Qed.

Lemma setParticipants_same (s : Bar.State) :
  Bar.setParticipants (Bar.participants s) s = s.
Proof. now destruct s. Qed.

(** C8. [handleConversationMarkRead] removes every summary of the given
    conversation and keeps every other summary; nothing else of the state
    changes.  When no summary matches the state is unchanged, so a second
    application changes nothing. *)
Theorem markedRead_removes_and_is_idempotent
    (c profileId : string) (s : Bar.State) :
  let s' := Bar.handleConversationMarkRead c profileId s in
  Forall (fun p => ConversationParticipant.conversationId p <> c)
    (Bar.participants s')
  /\ (forall p, ConversationParticipant.conversationId p <> c ->
                In p (Bar.participants s') <-> In p (Bar.participants s))
  /\ (forall d, d <> c ->
        filter (fun p => ConversationParticipant.conversationId p =? d)
          (Bar.participants s')
        = filter (fun p => ConversationParticipant.conversationId p =? d)
            (Bar.participants s))
  /\ s' = Bar.setParticipants (Bar.participants s') s
  /\ ((forall p, In p (Bar.participants s) ->
                 ConversationParticipant.conversationId p <> c) -> s' = s)
  /\ Bar.handleConversationMarkRead c profileId s' = s'.
Proof.
  simpl. unfold Bar.handleConversationMarkRead. simpl.
  split; [apply withoutConversation_forall|].
  split; [intros p Hp; now apply withoutConversation_in|].
  split.
  { intros d Hd. unfold Bar.withoutConversation.
    rewrite filter_filter_and. apply filter_ext. intros p.
    destruct (String.eqb_spec (ConversationParticipant.conversationId p) d)
      as [->|Hne]; [|apply andb_false_r].
    apply String.eqb_neq in Hd. now rewrite Hd. }
  split; [reflexivity|].
  split.
  - intros H. rewrite (withoutConversation_absent _ _ H).
    apply setParticipants_same.
  - now rewrite withoutConversation_idem.
Qed.

(** ** Opening a conversation *)

Lemma nth_error_snoc {A : Type} (l : list A) (x : A) :
  nth_error (l ++ [x]) (List.length l) = Some x.
Proof. rewrite nth_error_app2, Nat.sub_diag by lia. reflexivity. Qed.

Lemma removeAt_snoc {A : Type} (l : list A) (x : A) :
  Bar.removeAt (List.length l) (l ++ [x]) = l.
Proof. induction l as [|y l IH]; simpl; [reflexivity | now rewrite IH]. Qed.

(** [step] is [react] followed by the bookkeeping of the exiting buttons,
    which touches nothing else. *)
Lemma step_fields s e :
  Bar.notifications (Bar.step s e) = Bar.notifications (Bar.react s e)
  /\ Bar.user (Bar.step s e) = Bar.user (Bar.react s e)
  /\ Bar.participants (Bar.step s e) = Bar.participants (Bar.react s e)
  /\ Bar.clickingConversation (Bar.step s e)
     = Bar.clickingConversation (Bar.react s e)
  /\ Bar.listeners (Bar.step s e) = Bar.listeners (Bar.react s e)
  /\ Bar.pending (Bar.step s e) = Bar.pending (Bar.react s e)
  /\ Bar.posted (Bar.step s e) = Bar.posted (Bar.react s e)
  /\ Bar.pushed (Bar.step s e) = Bar.pushed (Bar.react s e).
Proof. destruct e; repeat split. Qed.

Lemma click_cases r c s :
  Bar.handleConversationClick r c s = s
  \/ Bar.handleConversationClick r c s
     = Bar.fetchMarkRead (Bar.seenClosure r) c
         (Bar.setParticipants
            (Bar.withoutConversation c (Bar.participants s))
            (Bar.setClickingConversation (Some c) s)).
Proof.
  unfold Bar.handleConversationClick.
  destruct (strict_eq (Bar.seenClicking r) (Some c)); [now left | now right].
Qed.

Lemma click_passes r c s :
  Bar.seenClicking r <> Some c ->
  Bar.handleConversationClick r c s
  = Bar.fetchMarkRead (Bar.seenClosure r) c
      (Bar.setParticipants (Bar.withoutConversation c (Bar.participants s))
         (Bar.setClickingConversation (Some c) s)).
Proof.
  intros Hne. unfold Bar.handleConversationClick.
  destruct (strict_eq (Bar.seenClicking r) (Some c)) eqn:E; [|reflexivity].
  apply strict_eq_iff in E. contradiction.
Qed.

(** C2. When the request started by [handleConversationClick] fails (the
    fetch rejects or the response is not ok) and nothing else happened in
    between, the summaries are exactly [processNotifications] of the
    untouched notification list: the optimistic removal is undone by
    recomputation, whatever the summaries were before the click. *)
Theorem failed_open_recomputes
    (s : Bar.State) (c : string) (o : FetchOutcome) :
  Bar.clickingConversation s <> Some c ->
  markReadSucceeded o = false ->
  let opened := Bar.handleConversationClick (Bar.currentRender s) c s in
  let recovered := Bar.settle (List.length (Bar.pending s)) o opened in
  Bar.participants opened = Bar.withoutConversation c (Bar.participants s)
  /\ Bar.posted opened = Bar.posted s ++ [c]
  /\ Bar.notifications recovered = Bar.notifications s
  /\ Bar.user recovered = Bar.user s
  /\ Bar.participants recovered
     = processNotifications (Bar.notifications s) (Bar.user s)
  /\ Bar.pending recovered = Bar.pending s
  /\ Bar.pushed recovered = Bar.pushed s.
Proof.
  intros Hguard Hfail. simpl.
  rewrite (click_passes (Bar.currentRender s) _ _ Hguard).
  unfold Bar.settle, Bar.fetchMarkRead. simpl.
  rewrite nth_error_snoc. unfold Bar.resume. rewrite Hfail. simpl.
  rewrite removeAt_snoc. repeat split; reflexivity.
Qed.

Lemma settle_keeps_pushed k o s :
  markReadSucceeded o = false -> Bar.pushed (Bar.settle k o s) = Bar.pushed s.
Proof.
  intros Hfail. unfold Bar.settle.
  destruct (nth_error (Bar.pending s) k); [|reflexivity].
  unfold Bar.resume. now rewrite Hfail.
Qed.

Lemma click_keeps_pushed r c s :
  Bar.pushed (Bar.handleConversationClick r c s) = Bar.pushed s.
Proof. now destruct (click_cases r c s) as [->| ->]. Qed.

Lemma step_keeps_pushed s e :
  noSuccess e = true -> Bar.pushed (Bar.step s e) = Bar.pushed s.
Proof.
  intros H. destruct (step_fields s e) as [_ [_ [_ [_ [_ [_ [_ ->]]]]]]].
  destruct e as [c|k o| | |c pid|ns u|k|k]; simpl in *.
  - apply click_keeps_pushed.
  - apply settle_keeps_pushed. now apply negb_true_iff in H.
  - reflexivity.
  - now destruct (Bar.listeners s).
  - now destruct (Bar.listeners s).
  - reflexivity.
  - destruct (nth_error (Bar.exiting s) k); [|reflexivity].
    apply click_keeps_pushed.
  - reflexivity.
Qed.

(** C9. [router.push] is reached only by the continuation of a request that
    succeeded.  A request that fails, by a network error or by a response
    that is not ok, leaves the navigation log as it was; so does every other
    event, and so does every trace without a successful settlement.  A
    request that succeeds navigates to its own conversation. *)
Theorem navigation_only_after_success :
  (forall s k, Bar.pushed (Bar.settle k NetworkError s) = Bar.pushed s)
  /\ (forall s k, Bar.pushed (Bar.settle k (Response false) s) = Bar.pushed s)
  /\ (forall s trace,
        forallb noSuccess trace = true ->
        Bar.pushed (Bar.run s trace) = Bar.pushed s)
  /\ (forall s k r,
        nth_error (Bar.pending s) k = Some r ->
        Bar.pushed (Bar.settle k (Response true) s)
        = Bar.pushed s
          ++ [Bar.conversationRoute (Bar.requestConversationId r)]).
Proof.
  split; [intros; now apply settle_keeps_pushed|].
  split; [intros; now apply settle_keeps_pushed|].
  split.
  - intros s trace. revert s.
    induction trace as [|e trace IH]; intros s H; simpl in *.
    + reflexivity.
    + apply andb_true_iff in H as [He Ht].
      rewrite (IH _ Ht). now apply step_keeps_pushed.
  - intros s k r Hk. unfold Bar.settle. rewrite Hk. reflexivity.
Qed.

(** ** The click guard *)

Lemma shows_iff ps c :
  Bar.shows ps c = true
  <-> exists p, In p ps /\ ConversationParticipant.conversationId p = c.
Proof.
  unfold Bar.shows. rewrite existsb_exists.
  split; intros [p [HIn H]]; exists p; split; try exact HIn;
    now apply String.eqb_eq.
Qed.

Lemma shows_without c ps : Bar.shows (Bar.withoutConversation c ps) c = false.
Proof.
  apply not_true_iff_false. rewrite shows_iff. intros [p [HIn Hp]].
  pose proof (withoutConversation_forall c ps) as H.
  rewrite Forall_forall in H. now apply (H p HIn).
Qed.

(** The button that a passing click removes stays on screen with the props
    of the render before the click, and a click on it sends the request
    again: for every state, not only the one evaluated below. *)
Lemma kept_button_posts_again s c :
  Bar.clickingConversation s <> Some c ->
  Bar.shows (Bar.participants s) c = true ->
  let s1 := Bar.step s (Bar.Click c) in
  exists k,
    nth_error (Bar.exiting s1) k = Some (Bar.mkKept c (Bar.currentRender s))
    /\ Bar.keptEnabled (Bar.mkKept c (Bar.currentRender s)) = true
    /\ Bar.outstanding c s1 = true
    /\ Bar.posted (Bar.step s1 (Bar.ClickKept k)) = Bar.posted s ++ [c; c].
Proof.
  intros Hguard Hshown. cbv zeta.
  remember (Bar.step s (Bar.Click c)) as s1 eqn:Hs1.
  assert (E : s1
              = Bar.setExiting
                  (Bar.leaving (Bar.currentRender s) (Bar.participants s)
                     (Bar.withoutConversation c (Bar.participants s))
                     (Bar.exiting s))
                  (Bar.handleConversationClick (Bar.currentRender s) c s)).
  { rewrite Hs1. unfold Bar.step, Bar.react.
    now rewrite (click_passes (Bar.currentRender s) _ _ Hguard). }
  clear Hs1.
  assert (HIn : In (Bar.mkKept c (Bar.currentRender s)) (Bar.exiting s1)).
  { rewrite E. simpl. unfold Bar.leaving. apply in_or_app. right.
    apply shows_iff in Hshown as [p [Hp <-]].
    apply in_map_iff. exists p. split; [reflexivity|].
    apply filter_In. split; [exact Hp|].
    now rewrite shows_without. }
  assert (Hposted : Bar.posted s1 = Bar.posted s ++ [c]).
  { rewrite E, (click_passes (Bar.currentRender s) _ _ Hguard). reflexivity. }
  assert (Hpending : Bar.pending s1
                     = Bar.pending s
                       ++ [Bar.mkRequest c (Bar.currentClosure s)]).
  { rewrite E, (click_passes (Bar.currentRender s) _ _ Hguard). reflexivity. }
  apply In_nth_error in HIn as [k Hk]. exists k.
  split; [exact Hk|]. split.
  { unfold Bar.keptEnabled. simpl. apply negb_true_iff.
    apply not_true_iff_false. now rewrite strict_eq_iff. }
  split.
  { unfold Bar.outstanding. rewrite Hpending, existsb_app. simpl.
    now rewrite String.eqb_refl, orb_true_r. }
  destruct (step_fields s1 (Bar.ClickKept k))
    as [_ [_ [_ [_ [_ [_ [-> _]]]]]]].
  unfold Bar.react. rewrite Hk. simpl Bar.keptRender.
  simpl Bar.keptConversationId.
  rewrite (click_passes (Bar.currentRender s) _ _ Hguard).
  unfold Bar.fetchMarkRead. simpl. rewrite Hposted.
  now rewrite <- app_assoc.
Qed.

(** C3. The code does not keep the promise of its comment "Prevent double
    clicks".  The guard of line 113 reads the [clickingConversation] of the
    render that created the clicked button.  A click removes the summary,
    and the button that stays on screen for its exit animation is the one of
    the render before the click: it is enabled and its handler saw [null].
    On the bar showing ["c1"] and ["c2"], a second and a third click on the
    ["c1"] button each send one more mark-read request while the first is
    outstanding.  The same happens on the button of the current render once
    another conversation has been opened and its request has failed, since
    the guard is one slot for all conversations. *)
Theorem repeated_open_posts_again :
  let s0 := Bar.mounted twoChats (Some carol) in
  let s1 := Bar.step s0 (Bar.Click "c1") in
  let s2 := Bar.step s1 (Bar.ClickKept 0) in
  let s3 := Bar.step s2 (Bar.ClickKept 0) in
  let t :=
    Bar.run s0
      [Bar.Click "c1"; Bar.Click "c2"; Bar.Settled 1 (Response false)] in
  (Bar.clickingConversation s1 = Some "c1"
   /\ Bar.outstanding "c1" s1 = true
   /\ Bar.posted s1 = ["c1"]
   /\ map ConversationParticipant.conversationId (Bar.participants s1)
      = ["c2"]
   /\ Bar.exiting s1 = [Bar.mkKept "c1" (Bar.currentRender s0)]
   /\ forallb Bar.keptEnabled (Bar.exiting s1) = true)
  /\ (Bar.posted s2 = ["c1"; "c1"]
      /\ map Bar.requestConversationId (Bar.pending s2) = ["c1"; "c1"]
      /\ Bar.posted s3 = ["c1"; "c1"; "c1"])
  /\ (Bar.outstanding "c1" t = true
      /\ Bar.exiting t = []
      /\ Bar.clickable "c1" t = true
      /\ Bar.posted t = ["c1"; "c2"]
      /\ Bar.posted (Bar.step t (Bar.Click "c1")) = ["c1"; "c2"; "c1"]).
Proof. vm_compute. repeat split. Qed.

(** ** The unread counter of the top navigation bar *)

Lemma step_counter_nonneg s c :
  (0 <= TopNavigation.unreadCount s)%Z ->
  (0 <= TopNavigation.unreadCount (TopNavigation.step s c))%Z.
Proof.
  intros H. destruct c as [i [|ok]|[|ok]|n]; simpl; lia.
Qed.

(** C10. The unread counter never becomes negative: from a counter that is
    not negative, zero included, every sequence of calls leaves it at least
    zero.  A completed [markAsRead] clamps at zero from any value, and a
    completed [markAllAsRead] resets the counter to zero. *)
Theorem unreadCount_never_negative :
  (forall s calls,
     (0 <= TopNavigation.unreadCount s)%Z ->
     (0 <= TopNavigation.unreadCount (TopNavigation.run s calls))%Z)
  /\ (forall s i ok,
        (0 <= TopNavigation.unreadCount
                (TopNavigation.markAsRead i (Response ok) s))%Z)
  /\ (forall s i o,
        TopNavigation.unreadCount s = 0%Z ->
        TopNavigation.unreadCount (TopNavigation.markAsRead i o s) = 0%Z)
  /\ (forall s ok,
        TopNavigation.unreadCount
          (TopNavigation.markAllAsRead (Response ok) s) = 0%Z).
Proof.
  split; [|split; [|split]].
  - intros s calls. revert s.
    induction calls as [|c calls IH]; intros s H; simpl.
    + exact H.
    + apply IH. now apply step_counter_nonneg.
  - intros s i ok. simpl. lia.
  - intros s i [|ok] H; simpl; lia.
  - reflexivity.
Qed.

(** ** The statements at concrete inputs *)

Example scenario_team :
  processNotifications
    [groupNote "1" "c1" (Some "Team"); groupNote "2" "c1" (Some "Team")] None
  = [ConversationParticipant.mk "c1" "" "Team" "" 2 "GROUP_MESSAGE"].
Proof. reflexivity. Qed.

Example scenario_two_chats :
  processNotifications twoChats (Some carol)
  = [ConversationParticipant.mk "c1" "pa" "Alice" "/img/alice.png" 1
       "DIRECT_MESSAGE";
     ConversationParticipant.mk "c2" "pb" "Bob" "/img/bob.png" 1
       "DIRECT_MESSAGE"].
Proof. reflexivity. Qed.

Lemma failed_open_recomputes_witness :
  let s := Bar.mounted twoChats (Some carol) in
  Bar.participants (Bar.handleConversationClick (Bar.currentRender s) "c1" s)
  = [ConversationParticipant.mk "c2" "pb" "Bob" "/img/bob.png" 1
       "DIRECT_MESSAGE"]
  /\ Bar.participants
       (Bar.settle 0 NetworkError (Bar.handleConversationClick (Bar.currentRender s) "c1" s))
     = processNotifications twoChats (Some carol).
Proof.
  pose proof (failed_open_recomputes (Bar.mounted twoChats (Some carol))
                "c1" NetworkError) as H.
  simpl in H. destruct H as [_ [_ [_ [_ [H _]]]]].
  - discriminate.
  - reflexivity.
  - split; [reflexivity | exact H].
Defined.

Lemma two_group_messages_witness :
  processNotifications
    [groupNote "1" "c1" (Some "Team"); groupNote "2" "c1" None] (Some carol)
  = [ConversationParticipant.mk "c1" "" "Team" "" 2 "GROUP_MESSAGE"].
Proof.
  destruct (two_group_messages_one_summary (Some carol)
              (groupNote "1" "c1" (Some "Team")) (groupNote "2" "c1" None)
              "c1"
              (Conversation.mk "GROUP_MESSAGE" (Some "Team"))
              (Conversation.mk "GROUP_MESSAGE" None)
              ltac:(discriminate) eq_refl eq_refl eq_refl eq_refl eq_refl
              eq_refl eq_refl eq_refl eq_refl eq_refl)
    as [d [H [_ Hd]]].
  rewrite H. rewrite (Hd "Team"); [reflexivity | reflexivity | discriminate].
Defined.

Lemma direct_message_witness :
  let self := directNote "9" "c1" (Profile.mk "Carol" "/img/carol.png") "pc" in
  let anonymous :=
    Notification.mk "8" "MESSAGE" false (Some "c2") None None "px" in
  processNotifications
    ([directNote "1" "c1" alice "pa"] ++ self :: twoChats) (Some carol)
  = processNotifications
      ([directNote "1" "c1" alice "pa"] ++ twoChats) (Some carol)
  /\ processNotifications (twoChats ++ anonymous :: []) (Some carol)
     = processNotifications (twoChats ++ []) (Some carol).
Proof.
  intros self anonymous. split.
  - apply (proj2 (direct_message_counted_only_if_other (Some carol)
                    [directNote "1" "c1" alice "pa"] twoChats self eq_refl)
             (Profile.mk "Carol" "/img/carol.png")); reflexivity.
  - apply (proj1 (direct_message_counted_only_if_other (Some carol)
                    twoChats [] anonymous eq_refl)).
    intros [p [Hp _]]. discriminate.
Defined.

Lemma filtered_out_witness :
  let readOne :=
    Notification.mk "7" "MESSAGE" true (Some "c1")
      (Some (Conversation.mk "DIRECT_MESSAGE" None)) (Some alice) "pa" in
  processNotifications ([directNote "1" "c1" alice "pa"] ++ readOne :: twoChats)
    (Some carol)
  = processNotifications ([directNote "1" "c1" alice "pa"] ++ twoChats)
      (Some carol).
Proof.
  apply filtered_out_contributes_nothing. right. left. reflexivity.
Defined.

Lemma processNotifications_order_witness :
  let ns := twoChats ++ [directNote "3" "c1" alice "pa"] in
  countedIds (Some carol) ns = ["c1"; "c2"; "c1"]
  /\ exists a b,
       firstIndex "c1" (countedIds (Some carol) ns) = Some a
       /\ firstIndex "c2" (countedIds (Some carol) ns) = Some b
       /\ a < b.
Proof.
  split; [reflexivity|].
  refine (proj2 (processNotifications_order _ (Some carol))
            [] "c1" ["c2"] "c2" _ _).
  - reflexivity.
  - left. reflexivity.
Defined.

Lemma markedRead_witness :
  let s := Bar.mounted twoChats (Some carol) in
  Bar.handleConversationMarkRead "c9" "pz" s = s.
Proof.
  pose proof (markedRead_removes_and_is_idempotent "c9" "pz"
                (Bar.mounted twoChats (Some carol))) as H.
  simpl in H. destruct H as [_ [_ [_ [_ [H _]]]]].
  simpl. apply H.
  intros p [<-|[<-|[]]]; discriminate.
Defined.

Lemma navigation_witness :
  let s := Bar.mounted twoChats (Some carol) in
  Bar.pushed
    (Bar.run s
       [Bar.Click "c1"; Bar.Settled 0 NetworkError;
        Bar.Click "c2"; Bar.Settled 0 (Response false)]) = []
  /\ Bar.pushed
       (Bar.settle 0 (Response true) (Bar.handleConversationClick (Bar.currentRender s) "c2" s))
     = ["/conversations/c2"].
Proof.
  destruct navigation_only_after_success as [_ [_ [H1 H2]]].
  split.
  - apply (H1 (Bar.mounted twoChats (Some carol))). reflexivity.
  - apply (H2 (Bar.handleConversationClick
      (Bar.currentRender (Bar.mounted twoChats (Some carol))) "c2"
      (Bar.mounted twoChats (Some carol))) 0
             (Bar.mkRequest "c2" (Bar.mkClosure twoChats (Some carol)))).
    reflexivity.
Defined.

Lemma unreadCount_witness :
  let s := TopNavigation.mkState twoChats 0 in
  (0 <= TopNavigation.unreadCount
          (TopNavigation.run s
             [TopNavigation.MarkAsRead "1" (Response true);
              TopNavigation.MarkAllAsRead NetworkError;
              TopNavigation.MarkAsRead "2" (Response false)]))%Z
  /\ TopNavigation.unreadCount
       (TopNavigation.markAsRead "1" (Response true) s) = 0%Z.
Proof.
  destruct unreadCount_never_negative as [H1 [_ [H3 _]]].
  split.
  - apply H1. simpl. lia.
  - apply H3. reflexivity.
Defined.

(** * Further properties of the aggregation *)

(** ** Lookups after one iteration *)

Section JsMapLookups.
Context {V : Type}.
Implicit Types (m : JsMap.t V) (k : string) (v : V).

Lemma get_mutate_same k f m :
  JsMap.get k (JsMap.mutate k f m) = option_map f (JsMap.get k m).
Proof.
  induction m as [|[k' v'] m IH]; simpl; [reflexivity|].
  destruct (k' =? k) eqn:E; simpl; rewrite E; [reflexivity | exact IH].
Qed.

Lemma get_mutate_other k k' f m :
  k' <> k -> JsMap.get k' (JsMap.mutate k f m) = JsMap.get k' m.
Proof.
  intros Hne. induction m as [|[k2 v2] m IH]; simpl; [reflexivity|].
  destruct (String.eqb_spec k2 k) as [->|Hk]; simpl.
  - apply not_eq_sym, String.eqb_neq in Hne. now rewrite Hne.
  - now rewrite IH.
Qed.

Lemma get_set_same k v m : JsMap.get k (JsMap.set k v m) = Some v.
Proof.
  induction m as [|[k' v'] m IH]; simpl.
  - now rewrite String.eqb_refl.
  - destruct (k' =? k) eqn:E; simpl; rewrite E; [reflexivity | exact IH].
Qed.

Lemma get_set_other k k' v m :
  k' <> k -> JsMap.get k' (JsMap.set k v m) = JsMap.get k' m.
Proof.
  intros Hne. induction m as [|[k2 v2] m IH]; simpl.
  - apply not_eq_sym, String.eqb_neq in Hne. now rewrite Hne.
  - destruct (String.eqb_spec k2 k) as [->|Hk]; simpl.
    + apply not_eq_sym, String.eqb_neq in Hne. now rewrite Hne.
    + now rewrite IH.
Qed.

Lemma get_in_values k v m : JsMap.get k m = Some v -> In v (JsMap.values m).
Proof.
  induction m as [|[k' v'] m IH]; simpl; [discriminate|].
  destruct (k' =? k); intros H.
  - injection H as ->. now left.
  - right. now apply IH.
Qed.

End JsMapLookups.

Lemma get_upsert_same cid fresh m :
  JsMap.get cid (upsert cid fresh m)
  = Some (match JsMap.get cid m with Some e => bump e | None => fresh end).
Proof.
  unfold upsert. destruct (JsMap.get cid m) eqn:Hget.
  - now rewrite get_mutate_same, Hget.
  - apply get_set_same.
Qed.

Lemma get_upsert_other cid k fresh m :
  k <> cid -> JsMap.get k (upsert cid fresh m) = JsMap.get k m.
Proof.
  intros Hne. unfold upsert. destruct (JsMap.get cid m).
  - now apply get_mutate_other.
  - now apply get_set_other.
Qed.

(** A counted notification is upserted with the entry that [firstEntry]
    names. *)
Lemma visit_firstEntry u m n c :
  passesFilter n = true -> countedUnder u n = Some c ->
  exists e, firstEntry c n = Some e /\ visit u m n = upsert c e m.
Proof.
  intros Hp. unfold countedUnder, visit, firstEntry. rewrite Hp. simpl.
  destruct (isGroup n); simpl.
  - intros ->. now exists (groupEntry c n).
  - destruct (Notification.triggeredBy n) as [p|]; [|discriminate].
    destruct (notSelf u p); [|discriminate].
    intros ->. now exists (directEntry c n p).
Qed.

Lemma countedUnder_passes u n c :
  countedUnder u n = Some c -> passesFilter n = true.
Proof.
  unfold countedUnder. destruct (passesFilter n); [reflexivity|discriminate].
Qed.

Lemma bump_withCount k e :
  bump (withCount k e) = withCount (k + 1) e.
Proof. reflexivity. Qed.

(** The ids of the output, as the keys of the final map. *)
Lemma processNotifications_ids ns u :
  map ConversationParticipant.conversationId (processNotifications ns u)
  = firstOccurrences (countedIds u ns).
Proof.
  unfold processNotifications.
  rewrite wellFormed_ids
    by apply (fold_visit_wellFormed u _ _ wellFormed_empty).
  rewrite keys_fold_visit. simpl.
  apply filter_all_true. intros x. apply unseen_nil.
Qed.

Lemma processNotifications_distinctPositive ns u :
  distinctPositive (processNotifications ns u).
Proof.
  unfold distinctPositive, processNotifications.
  destruct (fold_visit_wellFormed u (filter passesFilter ns) JsMap.empty
              wellFormed_empty) as [Hnd Hall].
  split.
  - now rewrite wellFormed_ids.
  - unfold JsMap.values. apply Forall_map.
    eapply Forall_impl; [|exact Hall]. intros e [_ H]. exact H.
Qed.

Lemma count_occ_countedIds u c ns :
  count_occ string_dec (countedIds u ns) c = countedFor u c ns.
Proof.
  unfold countedIds, countedFor.
  induction ns as [|n ns IH]; simpl; [reflexivity|].
  rewrite count_occ_app, IH.
  destruct (countedUnder u n) as [c'|]; simpl; [|reflexivity].
  destruct (string_dec c' c) as [->|Hne].
  - now rewrite String.eqb_refl.
  - apply String.eqb_neq in Hne. now rewrite Hne.
Qed.

(** X1. The [unreadCount] of a summary is the number of notifications of the
    input that are counted under its conversation: unread [MESSAGE]
    notifications of that conversation that are group messages or come from
    another sender. *)
Theorem unreadCount_is_number_counted
    (ns : list Notification.t) (u : option User.t) (p : Participant) :
  In p (processNotifications ns u) ->
  ConversationParticipant.unreadCount p
  = Z.of_nat (countedFor u (ConversationParticipant.conversationId p) ns).
Proof.
  intros HIn. rewrite (processNotifications_counts _ _ _ HIn).
  now rewrite count_occ_countedIds.
Qed.

(** X2. A conversation has a summary exactly when some notification of the
    input is counted under it; so the bar is empty exactly when nothing is
    counted. *)
Theorem summarised_iff_counted
    (ns : list Notification.t) (u : option User.t) :
  (forall c,
     In c (map ConversationParticipant.conversationId
             (processNotifications ns u))
     <-> exists n, In n ns /\ countedUnder u n = Some c)
  /\ (processNotifications ns u = []
      <-> forall n, In n ns -> countedUnder u n = None).
Proof.
  assert (Hmem : forall c,
             In c (map ConversationParticipant.conversationId
                     (processNotifications ns u))
             <-> exists n, In n ns /\ countedUnder u n = Some c).
  { intros c. split.
    - rewrite processNotifications_ids, firstOccurrences_in.
      unfold countedIds. rewrite in_flat_map. intros [n [HIn Hc]].
      exists n. split; [exact HIn|].
      destruct (countedUnder u n) as [c'|]; [|contradiction].
      destruct Hc as [->|[]]. reflexivity.
    - intros [n [HIn Hc]]. now apply (counted_is_summarised ns u n c). }
  split; [exact Hmem|]. split.
  - intros Hnil n HIn. destruct (countedUnder u n) as [c|] eqn:Hc;
      [|reflexivity].
    exfalso. assert (H : In c (map ConversationParticipant.conversationId
                                 (processNotifications ns u)))
      by (apply Hmem; eauto).
    rewrite Hnil in H. exact H.
  - intros Hnone.
    destruct (processNotifications ns u) as [|p ps] eqn:E; [reflexivity|].
    exfalso.
    assert (H : In (ConversationParticipant.conversationId p)
                  (map ConversationParticipant.conversationId (p :: ps)))
      by now left.
    apply Hmem in H as [n [HIn Hc]]. rewrite (Hnone _ HIn) in Hc.
    discriminate.
Qed.

(** ** The summary of a conversation *)

Lemma fold_get_absent u c l m :
  JsMap.get c m = None ->
  (forall n, In n l -> countedUnder u n <> Some c) ->
  JsMap.get c (fold_left (visit u) (filter passesFilter l) m) = None.
Proof.
  revert m. induction l as [|n l IH]; intros m Hget Hl; simpl; [exact Hget|].
  assert (Hl' : forall n', In n' l -> countedUnder u n' <> Some c)
    by (intros n' H; apply Hl; now right).
  destruct (passesFilter n) eqn:Hp; [|now apply IH].
  simpl. apply IH; [|exact Hl'].
  pose proof (visit_counted u m n Hp) as Hv.
  pose proof (Hl n (or_introl eq_refl)) as Hn.
  destruct (countedUnder u n) as [cid|].
  - destruct Hv as [fresh [-> _]]. rewrite get_upsert_other; [exact Hget|].
    congruence.
  - now rewrite Hv.
Qed.

Lemma withCount_same e :
  withCount (ConversationParticipant.unreadCount e) e = e.
Proof. now destruct e. Qed.

Lemma fold_get_present u c e l m k :
  JsMap.get c m = Some (withCount k e) ->
  exists k',
    JsMap.get c (fold_left (visit u) (filter passesFilter l) m)
    = Some (withCount k' e).
Proof.
  revert m k. induction l as [|n l IH]; intros m k Hget; simpl.
  - now exists k.
  - destruct (passesFilter n) eqn:Hp; [|now apply (IH m k)].
    simpl. pose proof (visit_counted u m n Hp) as Hv.
    destruct (countedUnder u n) as [cid|].
    + destruct Hv as [fresh [-> _]].
      destruct (string_dec c cid) as [<-|Hne].
      * apply (IH _ (k + 1)%Z). rewrite get_upsert_same, Hget.
        now rewrite bump_withCount.
      * apply (IH _ k). now rewrite get_upsert_other.
    + rewrite Hv. now apply (IH m k).
Qed.

Lemma firstEntry_id c n e :
  firstEntry c n = Some e -> ConversationParticipant.conversationId e = c.
Proof.
  unfold firstEntry. destruct (isGroup n).
  - now intros [= <-].
  - destruct (Notification.triggeredBy n); [now intros [= <-] | discriminate].
Qed.

(** X3. The summary of a conversation is made from the first notification
    counted under it: its kind, name, profile and avatar are those of that
    notification (the conversation name or ["Group Chat"] for a group
    message, the sender for a direct message), whatever later notifications
    of the conversation say; only the count grows. *)
Theorem summary_made_from_first_counted
    (u : option User.t) (before after : list Notification.t)
    (n : Notification.t) (c : string) :
  countedUnder u n = Some c ->
  (forall n', In n' before -> countedUnder u n' <> Some c) ->
  exists e,
    firstEntry c n = Some e
    /\ In (withCount (Z.of_nat (countedFor u c (before ++ n :: after))) e)
         (processNotifications (before ++ n :: after) u).
Proof.
  intros Hc Hbefore.
  pose proof (countedUnder_passes _ _ _ Hc) as Hp.
  set (m1 := fold_left (visit u) (filter passesFilter before) JsMap.empty).
  assert (Habsent : JsMap.get c m1 = None)
    by now apply fold_get_absent.
  destruct (visit_firstEntry u m1 n c Hp Hc) as [e [He Hv]].
  exists e. split; [exact He|].
  assert (Hn : JsMap.get c (visit u m1 n)
               = Some (withCount (ConversationParticipant.unreadCount e) e)).
  { now rewrite Hv, get_upsert_same, Habsent, withCount_same. }
  destruct (fold_get_present u c e after _ _ Hn) as [k Hk].
  assert (HIn : In (withCount k e)
                  (processNotifications (before ++ n :: after) u)).
  { unfold processNotifications. rewrite filter_app, fold_left_app. simpl.
    rewrite Hp. simpl. eapply get_in_values, Hk. }
  pose proof (processNotifications_counts _ _ _ HIn) as Hcount.
  simpl in Hcount. rewrite (firstEntry_id _ _ _ He) in Hcount.
  rewrite count_occ_countedIds in Hcount. now rewrite <- Hcount.
Qed.

Lemma or_default_nonempty o d : d <> "" -> or_default o d <> "".
Proof.
  intros Hd. unfold or_default. destruct o as [s|]; [|exact Hd].
  destruct (String.eqb_spec s ""); assumption.
Qed.

Lemma upsert_forall_values (P : Participant -> Prop) cid fresh m :
  (forall v, P v -> P (bump v)) -> P fresh ->
  Forall (fun e => P (snd e)) m ->
  Forall (fun e => P (snd e)) (upsert cid fresh m).
Proof.
  intros Hb Hf Hall. unfold upsert. destruct (JsMap.get cid m) eqn:Hget.
  - apply mutate_forall; [|exact Hall]. intros v. apply Hb.
  - rewrite (set_fresh _ _ _ Hget). apply Forall_app. split; [exact Hall|].
    now constructor.
Qed.

Lemma visit_shape u m n :
  Forall (fun e => summaryShape u (snd e)) m ->
  Forall (fun e => summaryShape u (snd e)) (visit u m n).
Proof.
  intros Hall. unfold visit.
  destruct (Notification.conversationId n) as [cid|]; [|exact Hall].
  destruct (isGroup n).
  - apply upsert_forall_values; [now intros v Hv | | exact Hall].
    left. simpl. repeat split. now apply or_default_nonempty.
  - destruct (Notification.triggeredBy n) as [p|]; [|exact Hall].
    destruct (notSelf u p) eqn:Hns; [|exact Hall].
    apply upsert_forall_values; [now intros v Hv | | exact Hall].
    right. simpl. split; [reflexivity|]. now apply notSelf_iff.
Qed.

(** X4. Every summary is of one of two kinds.  A group summary has no
    profile, no avatar and a name that is not empty.  A direct summary
    carries a sender name that is neither the full name nor the first name
    of the current user: the user never appears as the sender of a direct
    summary. *)
Theorem summaries_have_shape
    (ns : list Notification.t) (u : option User.t) :
  Forall (summaryShape u) (processNotifications ns u).
Proof.
  unfold processNotifications, JsMap.values. apply Forall_map.
  generalize (filter passesFilter ns). intros l.
  assert (H : forall m,
             Forall (fun e => summaryShape u (snd e)) m ->
             Forall (fun e => summaryShape u (snd e))
               (fold_left (visit u) l m)).
  { induction l as [|n l IH]; intros m Hm; simpl; [exact Hm|].
    apply IH. now apply visit_shape. }
  apply H. constructor.
Qed.

(** X5. The order of the notifications decides the order of the summaries
    and their names, not which conversations are summarised nor their
    counts: two inputs that are permutations of each other give summaries
    of the same conversations with the same [unreadCount]s. *)
Theorem counts_do_not_depend_on_order
    (ns ns' : list Notification.t) (u : option User.t) :
  Permutation ns ns' ->
  (forall c,
     In c (map ConversationParticipant.conversationId
             (processNotifications ns u))
     <-> In c (map ConversationParticipant.conversationId
                 (processNotifications ns' u)))
  /\ (forall p p',
        In p (processNotifications ns u) ->
        In p' (processNotifications ns' u) ->
        ConversationParticipant.conversationId p
        = ConversationParticipant.conversationId p' ->
        ConversationParticipant.unreadCount p
        = ConversationParticipant.unreadCount p').
Proof.
  intros Hperm.
  assert (Hids : Permutation (countedIds u ns) (countedIds u ns'))
    by now apply Permutation_flat_map.
  split.
  - intros c. rewrite !processNotifications_ids, !firstOccurrences_in.
    split; apply Permutation_in; [exact Hids | now apply Permutation_sym].
  - intros p p' Hp Hp' Hc.
    rewrite (processNotifications_counts _ _ _ Hp).
    rewrite (processNotifications_counts _ _ _ Hp'), Hc. f_equal.
    now apply Permutation_count_occ.
Qed.

(** * Further properties of the notification bar *)

(** ** What a step can do to the summaries on display *)

Lemma settle_cases k o s :
  Bar.settle k o s = s
  \/ exists r,
       nth_error (Bar.pending s) k = Some r
       /\ Bar.settle k o s = Bar.resume r o (Bar.dropPending k s).
Proof.
  unfold Bar.settle. destruct (nth_error (Bar.pending s) k) as [r|].
  - right. now exists r.
  - now left.
Qed.

(** The list on display after a step is the old one, the old one without a
    conversation, or a fresh result of [processNotifications]. *)
Lemma step_participants s e :
  Bar.participants (Bar.step s e) = Bar.participants s
  \/ (exists c,
        Bar.participants (Bar.step s e)
        = Bar.withoutConversation c (Bar.participants s))
  \/ (exists ns u,
        Bar.participants (Bar.step s e) = processNotifications ns u).
Proof.
  destruct (step_fields s e) as [_ [_ [-> _]]].
  destruct e as [c|k o| | |c pid|ns u|k|k]; simpl.
  - destruct (click_cases (Bar.currentRender s) c s) as [->| ->];
      [now left | right; left; now exists c].
  - destruct (settle_cases k o s) as [->|[r [_ ->]]]; [now left|].
    unfold Bar.resume. destruct (markReadSucceeded o); simpl;
      [now left | right; right; eauto].
  - now left.
  - destruct (Bar.listeners s); [right; right; simpl; eauto | now left].
  - destruct (Bar.listeners s); [right; left; now exists c | now left].
  - right. right. simpl. eauto.
  - destruct (nth_error (Bar.exiting s) k) as [b|]; [|now left].
    destruct (click_cases (Bar.keptRender b) (Bar.keptConversationId b) s)
      as [->| ->];
      [now left | right; left; now exists (Bar.keptConversationId b)].
  - now left.
Qed.

Lemma NoDup_map_filter {A B : Type} (f : A -> B) (g : A -> bool)
    (l : list A) :
  NoDup (map f l) -> NoDup (map f (filter g l)).
Proof.
  induction l as [|x l IH]; simpl; intros H; [constructor|].
  inversion H as [|? ? Hnin Hnd]; subst.
  destruct (g x); simpl; [|now apply IH].
  constructor; [|now apply IH].
  intros HIn. apply Hnin. apply in_map_iff in HIn as [y [Hy HIn]].
  apply filter_In in HIn as [HIn _]. apply in_map_iff. now exists y.
Qed.

Lemma withoutConversation_distinctPositive c ps :
  distinctPositive ps -> distinctPositive (Bar.withoutConversation c ps).
Proof.
  intros [Hnd Hpos]. split.
  - now apply NoDup_map_filter.
  - apply Forall_forall. intros p HIn. apply filter_In in HIn as [HIn _].
    rewrite Forall_forall in Hpos. now apply Hpos.
Qed.

(** X6. In every state the mounted bar can reach, through clicks, settled
    requests, socket events and hook changes in any order, the summaries on
    display have pairwise distinct conversations (the React keys of
    line 148) and counts of at least 1. *)
Theorem displayed_summaries_distinct_and_positive :
  (forall ns u trace,
     distinctPositive (Bar.participants (Bar.run (Bar.mounted ns u) trace)))
  /\ (forall s trace,
        distinctPositive (Bar.participants s) ->
        distinctPositive (Bar.participants (Bar.run s trace))).
Proof.
  assert (Hrun : forall trace s,
             distinctPositive (Bar.participants s) ->
             distinctPositive (Bar.participants (Bar.run s trace))).
  { induction trace as [|e trace IH]; intros s Hs; simpl; [exact Hs|].
    apply IH.
    destruct (step_participants s e) as [->|[[c ->]|[ns [u ->]]]].
    - exact Hs.
    - now apply withoutConversation_distinctPositive.
    - apply processNotifications_distinctPositive. }
  split.
  - intros ns u trace. apply Hrun. simpl.
    apply processNotifications_distinctPositive.
  - intros s trace. apply Hrun.
Qed.

(** ** Closures *)

Lemma removeAt_in {A : Type} (k : nat) (l : list A) (x : A) :
  In x (Bar.removeAt k l) -> In x l.
Proof.
  revert k. induction l as [|y l IH]; intros k; simpl; [now destruct k|].
  destruct k as [|k]; simpl; [now right|].
  intros [->|H]; [now left | right; now apply (IH k)].
Qed.

Lemma removeAt_length {A : Type} (k : nat) (l : list A) (x : A) :
  nth_error l k = Some x -> S (List.length (Bar.removeAt k l)) = List.length l.
Proof.
  revert k. induction l as [|y l IH]; intros k; simpl.
  - now destruct k.
  - destruct k as [|k]; simpl; [reflexivity|].
    intros H. now rewrite (IH _ H).
Qed.

Lemma click_closuresSee ns u r c s :
  Bar.seenClosure r = Bar.mkClosure ns u ->
  closuresSee ns u s ->
  closuresSee ns u (Bar.handleConversationClick r c s).
Proof.
  intros Hr [Hn [Hu [Hl [Hp Hx]]]]. unfold closuresSee.
  destruct (click_cases r c s) as [->| ->]; [repeat split; assumption|].
  simpl. repeat split; try assumption.
  apply Forall_app. split; [exact Hp|]. now repeat constructor.
Qed.

Lemma react_closuresSee ns u s e :
  keepsHooks e = true ->
  closuresSee ns u s -> closuresSee ns u (Bar.react s e).
Proof.
  intros He Hs. pose proof Hs as [Hn [Hu [Hl [Hp Hx]]]].
  assert (Hcur : Bar.currentClosure s = Bar.mkClosure ns u)
    by (unfold Bar.currentClosure; now rewrite Hn, Hu).
  destruct e as [c|k o| | |c pid|ns' u'|k|k]; simpl in *; try discriminate.
  - now apply click_closuresSee.
  - destruct (settle_cases k o s) as [->|[r [Hr ->]]]; [exact Hs|].
    assert (Hp' : Forall (fun r => Bar.requestClosure r = Bar.mkClosure ns u)
                    (Bar.removeAt k (Bar.pending s))).
    { rewrite Forall_forall in *. intros x Hx'. apply Hp.
      eapply removeAt_in, Hx'. }
    unfold closuresSee, Bar.resume.
    destruct (markReadSucceeded o); simpl; repeat split; assumption.
  - unfold closuresSee. simpl. repeat split; try assumption.
    intros c [= <-]. exact Hcur.
  - destruct (Bar.listeners s) as [c|] eqn:El; [|exact Hs].
    unfold closuresSee. simpl. rewrite El. repeat split; assumption.
  - destruct (Bar.listeners s) as [c0|] eqn:El; [|exact Hs].
    unfold closuresSee. simpl. rewrite El. repeat split; assumption.
  - destruct (nth_error (Bar.exiting s) k) as [b|] eqn:Hk; [|exact Hs].
    apply click_closuresSee; [|exact Hs].
    rewrite Forall_forall in Hx. apply Hx. eapply nth_error_In, Hk.
  - exact Hs.
Qed.

Lemma react_participants_seen ns u s e :
  keepsHooks e = true ->
  closuresSee ns u s ->
  Bar.participants (Bar.react s e) = Bar.participants s
  \/ (exists c,
        Bar.participants (Bar.react s e)
        = Bar.withoutConversation c (Bar.participants s))
  \/ Bar.participants (Bar.react s e) = processNotifications ns u.
Proof.
  intros He [Hn [Hu [Hl [Hp Hx]]]].
  destruct e as [c|k o| | |c pid|ns' u'|k|k]; simpl in *; try discriminate.
  - destruct (click_cases (Bar.currentRender s) c s) as [->| ->];
      [now left | right; left; now exists c].
  - destruct (settle_cases k o s) as [->|[r [Hr ->]]]; [now left|].
    unfold Bar.resume. destruct (markReadSucceeded o); simpl; [now left|].
    right. right. rewrite Forall_forall in Hp.
    now rewrite (Hp r (nth_error_In _ _ Hr)).
  - now left.
  - destruct (Bar.listeners s) as [c|] eqn:El; [|now left].
    right. right. simpl. now rewrite (Hl c eq_refl).
  - destruct (Bar.listeners s); [right; left; now exists c | now left].
  - destruct (nth_error (Bar.exiting s) k) as [b|]; [|now left].
    destruct (click_cases (Bar.keptRender b) (Bar.keptConversationId b) s)
      as [->| ->];
      [now left | right; left; now exists (Bar.keptConversationId b)].
  - now left.
Qed.

Lemma leaving_forall (P : Bar.Kept -> Prop) r old new kept :
  (forall c, P (Bar.mkKept c r)) ->
  Forall P kept -> Forall P (Bar.leaving r old new kept).
Proof.
  intros Hr Hkept. unfold Bar.leaving. apply Forall_app. split.
  - rewrite Forall_forall in *. intros b Hb.
    apply filter_In in Hb as [Hb _]. now apply Hkept.
  - apply Forall_map, Forall_forall. intros p _. apply Hr.
Qed.

Lemma step_closuresSee ns u s e :
  keepsHooks e = true ->
  closuresSee ns u s
  /\ (forall p, In p (Bar.participants s) ->
                In p (processNotifications ns u)) ->
  closuresSee ns u (Bar.step s e)
  /\ (forall p, In p (Bar.participants (Bar.step s e)) ->
                In p (processNotifications ns u)).
Proof.
  intros He [Hs Hsub].
  pose proof (react_closuresSee ns u s e He Hs) as [Hn [Hu [Hl [Hp Hx]]]].
  destruct (step_fields s e) as [En [Eu [Eps [_ [El [Epe _]]]]]].
  split.
  - unfold closuresSee. rewrite En, Eu, El, Epe.
    repeat split; try assumption.
    destruct Hs as [Hn0 [Hu0 [_ [_ Hx0]]]].
    destruct e as [c|k o| | |c pid|ns' u'|k|k]; try discriminate;
      try (apply leaving_forall; [intros c'; simpl; unfold Bar.currentClosure;
                                  now rewrite Hn0, Hu0 | exact Hx0]).
    simpl. rewrite Forall_forall in *. intros b Hb. apply Hx0.
    eapply removeAt_in, Hb.
  - rewrite Eps.
    destruct (react_participants_seen ns u s e He Hs) as [->|[[c ->]| ->]].
    + exact Hsub.
    + intros p H. apply filter_In in H as [H _]. now apply Hsub.
    + auto.
Qed.

(** X7. As long as the hooks return the same notifications and user, the
    bar never shows a summary that [processNotifications] would not produce
    from them, with the same count: clicks and marked-read events only take
    summaries away, and failed requests and socket notifications put back
    exactly the recomputed list. *)
Theorem displayed_summaries_come_from_rebuild
    (ns : list Notification.t) (u : option User.t)
    (trace : list Bar.Event) :
  forallb keepsHooks trace = true ->
  let s := Bar.run (Bar.mounted ns u) trace in
  Bar.notifications s = ns
  /\ Bar.user s = u
  /\ (forall p, In p (Bar.participants s) ->
                In p (processNotifications ns u)).
Proof.
  intros Ht. simpl.
  assert (Hrun : forall trace s,
             forallb keepsHooks trace = true ->
             closuresSee ns u s
             /\ (forall p, In p (Bar.participants s) ->
                           In p (processNotifications ns u)) ->
             closuresSee ns u (Bar.run s trace)
             /\ (forall p, In p (Bar.participants (Bar.run s trace)) ->
                           In p (processNotifications ns u))).
  { clear trace Ht. induction trace as [|e trace IH]; intros s Ht Hs; simpl.
    - exact Hs.
    - simpl in Ht. apply andb_true_iff in Ht as [He Ht].
      apply IH; [exact Ht|]. now apply step_closuresSee. }
  destruct (Hrun trace (Bar.mounted ns u) Ht) as [[Hn [Hu _]] Hsub].
  - split.
    + repeat split; simpl; [discriminate | constructor | constructor].
    + simpl. auto.
  - auto.
Qed.

(** ** Requests and navigations *)

Lemma click_accounting r c s :
  accounted s -> accounted (Bar.handleConversationClick r c s).
Proof.
  intros Hs. pose proof Hs as [Hlen [Hpend Hpush]]. unfold accounted.
  destruct (click_cases r c s) as [->| ->]; [exact Hs|].
  simpl. rewrite !length_app. simpl. split; [lia|]. split.
  - intros q Hq. apply in_or_app. apply in_app_or in Hq as [Hq|[<-|[]]].
    + left. now apply Hpend.
    + right. now left.
  - intros x Hx. destruct (Hpush x Hx) as [d [Hd ->]].
    exists d. split; [apply in_or_app; now left | reflexivity].
Qed.

Lemma react_accounting s e : accounted s -> accounted (Bar.react s e).
Proof.
  intros Hs. pose proof Hs as [Hlen [Hpend Hpush]].
  destruct e as [c|k o| | |c pid|ns u|k|k]; simpl.
  - now apply click_accounting.
  - destruct (settle_cases k o s) as [->|[r [Hr ->]]]; [exact Hs|].
    pose proof (removeAt_length _ _ _ Hr) as Hrm.
    assert (Hpend' : forall r', In r' (Bar.removeAt k (Bar.pending s)) ->
                                In (Bar.requestConversationId r') (Bar.posted s)).
    { intros r' H. apply Hpend. eapply removeAt_in, H. }
    unfold accounted, Bar.resume. destruct (markReadSucceeded o); simpl.
    + rewrite length_app. simpl. split; [lia|]. split; [exact Hpend'|].
      intros x Hx. apply in_app_or in Hx as [Hx|[<-|[]]].
      * now apply Hpush.
      * exists (Bar.requestConversationId r). split; [|reflexivity].
        apply Hpend. eapply nth_error_In, Hr.
    + split; [lia|]. now split.
  - exact Hs.
  - destruct (Bar.listeners s); exact Hs.
  - destruct (Bar.listeners s); exact Hs.
  - exact Hs.
  - destruct (nth_error (Bar.exiting s) k); [|exact Hs].
    now apply click_accounting.
  - exact Hs.
Qed.

Lemma step_accounting s e : accounted s -> accounted (Bar.step s e).
Proof.
  intros Hs. pose proof (react_accounting s e Hs) as Hr.
  unfold accounted in *.
  destruct (step_fields s e) as [_ [_ [_ [_ [_ [Epe [Epo Epu]]]]]]].
  now rewrite Epe, Epo, Epu.
Qed.

Lemma run_accounting trace s : accounted s -> accounted (Bar.run s trace).
Proof.
  revert s. induction trace as [|e trace IH]; intros s Hs; simpl.
  - exact Hs.
  - apply IH. now apply step_accounting.
Qed.

(** X8. Whatever happens to the mounted bar, every navigation is to the
    route of a conversation for which a mark-read request was sent, every
    request still awaited was sent, and navigations and awaited requests
    together never outnumber the requests sent. *)
Theorem navigations_are_accounted_for
    (ns : list Notification.t) (u : option User.t)
    (trace : list Bar.Event) :
  let s := Bar.run (Bar.mounted ns u) trace in
  List.length (Bar.pushed s) + List.length (Bar.pending s)
  <= List.length (Bar.posted s)
  /\ (forall r, In r (Bar.pending s) ->
                In (Bar.requestConversationId r) (Bar.posted s))
  /\ (forall x, In x (Bar.pushed s) ->
                exists c, In c (Bar.posted s) /\ x = Bar.conversationRoute c).
Proof.
  simpl. apply run_accounting.
  split; [simpl; lia|]. split; intros ? [].
Qed.

(** ** The closures of the socket handlers *)

Lemma step_keeps_listeners s e :
  keepsListeners e = true -> Bar.listeners (Bar.step s e) = Bar.listeners s.
Proof.
  intros H. destruct (step_fields s e) as [_ [_ [_ [_ [-> _]]]]].
  destruct e as [c|k o| | |c pid|ns u|k|k]; simpl; try discriminate.
  - now destruct (click_cases (Bar.currentRender s) c s) as [->| ->].
  - destruct (settle_cases k o s) as [->|[r [_ ->]]]; [reflexivity|].
    unfold Bar.resume. now destruct (markReadSucceeded o).
  - destruct (Bar.listeners s) eqn:E; simpl; now rewrite ?E.
  - destruct (Bar.listeners s) eqn:E; simpl; now rewrite ?E.
  - reflexivity.
  - destruct (nth_error (Bar.exiting s) k) as [b|]; [|reflexivity].
    now destruct (click_cases (Bar.keptRender b) (Bar.keptConversationId b) s)
      as [->| ->].
  - reflexivity.
Qed.

Lemma run_keeps_listeners trace s :
  forallb keepsListeners trace = true ->
  Bar.listeners (Bar.run s trace) = Bar.listeners s.
Proof.
  revert s. induction trace as [|e trace IH]; intros s H; simpl.
  - reflexivity.
  - simpl in H. apply andb_true_iff in H as [He Ht].
    rewrite (IH _ Ht). now apply step_keeps_listeners.
Qed.

(** X9. The socket handlers are registered once per socket and keep the
    closure of that render.  Until the socket changes, a [notification:new]
    or [notification:update] event recomputes the summaries from the
    notifications and user of the render that registered the handlers, also
    after the hooks have returned newer ones. *)
Theorem socket_notification_uses_registration_closure
    (s : Bar.State) (trace : list Bar.Event) :
  forallb keepsListeners trace = true ->
  let s' := Bar.run (Bar.registerListeners s) trace in
  Bar.listeners s' = Some (Bar.currentClosure s)
  /\ Bar.participants (Bar.step s' Bar.SocketNotification)
     = processNotifications (Bar.notifications s) (Bar.user s).
Proof.
  intros Ht. simpl.
  pose proof (run_keeps_listeners trace (Bar.registerListeners s) Ht) as Hl.
  simpl in Hl. split; [exact Hl|]. now rewrite Hl.
Qed.

(** ** A request that succeeds *)

(** X10. When the request started by [handleConversationClick] succeeds and
    nothing else happened in between, the optimistic removal stands: the
    summaries are those before the click without the opened conversation,
    nothing is recomputed, the bar navigates once to the conversation, and
    the guard is free again. *)
Theorem successful_open_keeps_removal (s : Bar.State) (c : string) :
  Bar.clickingConversation s <> Some c ->
  let opened := Bar.handleConversationClick (Bar.currentRender s) c s in
  let done :=
    Bar.settle (List.length (Bar.pending s)) (Response true) opened in
  Bar.participants done = Bar.withoutConversation c (Bar.participants s)
  /\ Forall (fun p => ConversationParticipant.conversationId p <> c)
       (Bar.participants done)
  /\ Bar.pushed done = Bar.pushed s ++ [Bar.conversationRoute c]
  /\ Bar.posted done = Bar.posted s ++ [c]
  /\ Bar.pending done = Bar.pending s
  /\ Bar.clickingConversation done = None
  /\ Bar.notifications done = Bar.notifications s.
Proof.
  intros Hguard. simpl.
  rewrite (click_passes (Bar.currentRender s) _ _ Hguard).
  unfold Bar.settle, Bar.fetchMarkRead. simpl.
  rewrite nth_error_snoc. unfold Bar.resume. simpl.
  rewrite removeAt_snoc.
  split; [reflexivity|]. split; [apply withoutConversation_forall|].
  repeat split.
Qed.

(** X11. The [conversation:marked-as-read] event that answers the bar's own
    request changes nothing: after the click has removed the conversation,
    before or after the request has succeeded, the handler finds nothing to
    remove. *)
Theorem own_marked_read_event_is_noop
    (s : Bar.State) (c profileId : string) :
  Bar.clickingConversation s <> Some c ->
  let opened := Bar.handleConversationClick (Bar.currentRender s) c s in
  let done :=
    Bar.settle (List.length (Bar.pending s)) (Response true) opened in
  Bar.handleConversationMarkRead c profileId opened = opened
  /\ Bar.handleConversationMarkRead c profileId done = done.
Proof.
  intros Hguard. simpl.
  rewrite (click_passes (Bar.currentRender s) _ _ Hguard).
  unfold Bar.settle, Bar.fetchMarkRead. simpl.
  rewrite nth_error_snoc. unfold Bar.resume. simpl.
  unfold Bar.handleConversationMarkRead. simpl.
  rewrite withoutConversation_idem. split; reflexivity.
Qed.

(** ** Badges *)

Lemma one_digit z :
  (1 <= z <= 9)%Z -> String.length (numberToString z) = 1.
Proof.
  intros H.
  assert (E : (z = 1 \/ z = 2 \/ z = 3 \/ z = 4 \/ z = 5
               \/ z = 6 \/ z = 7 \/ z = 8 \/ z = 9)%Z) by lia.
  repeat (destruct E as [->|E]; [reflexivity|]). now subst.
Qed.

Lemma up_to_two_digits z :
  (1 <= z <= 99)%Z ->
  1 <= String.length (numberToString z) <= 2.
Proof.
  intros H.
  assert (Hall : forallb
                   (fun k =>
                      let t := String.length (numberToString (Z.of_nat k)) in
                      Nat.leb 1 t && Nat.leb t 2)
                   (seq 1 99) = true) by (vm_compute; reflexivity).
  rewrite forallb_forall in Hall.
  assert (HIn : In (Z.to_nat z) (seq 1 99)) by (apply in_seq; lia).
  specialize (Hall (Z.to_nat z) HIn). cbv beta zeta in Hall.
  rewrite Z2Nat.id in Hall by lia.
  apply andb_true_iff in Hall as [H1 H2].
  apply Nat.leb_le in H1. apply Nat.leb_le in H2. lia.
Qed.

(** X12. The unread badge of a summary produced by [processNotifications]
    is the digit of its count when one to nine notifications are counted,
    ["1"] for one up to ["9"] for nine, and the text ["9+"] exactly when
    more than nine are counted; it is never empty, never ["0"] and never
    longer than two characters. *)
Theorem summary_badge_fits
    (ns : list Notification.t) (u : option User.t) (p : Participant) :
  In p (processNotifications ns u) ->
  1 <= String.length (BarView.badgeText p) <= 2
  /\ BarView.badgeText p <> "0"
  /\ (BarView.badgeText p = "9+"
      <-> (9 < ConversationParticipant.unreadCount p)%Z)
  /\ ((ConversationParticipant.unreadCount p <= 9)%Z ->
      nth_error ["1"; "2"; "3"; "4"; "5"; "6"; "7"; "8"; "9"]
        (Z.to_nat (ConversationParticipant.unreadCount p - 1))
      = Some (BarView.badgeText p)).
Proof.
  intros HIn.
  destruct (processNotifications_distinctPositive ns u) as [_ Hpos].
  rewrite Forall_forall in Hpos. pose proof (Hpos _ HIn) as Hp.
  unfold BarView.badgeText.
  destruct (Z.ltb_spec 9 (ConversationParticipant.unreadCount p)) as [Hlt|Hle].
  - simpl. repeat split; try lia; discriminate.
  - assert (E : (ConversationParticipant.unreadCount p = 1
                 \/ ConversationParticipant.unreadCount p = 2
                 \/ ConversationParticipant.unreadCount p = 3
                 \/ ConversationParticipant.unreadCount p = 4
                 \/ ConversationParticipant.unreadCount p = 5
                 \/ ConversationParticipant.unreadCount p = 6
                 \/ ConversationParticipant.unreadCount p = 7
                 \/ ConversationParticipant.unreadCount p = 8
                 \/ ConversationParticipant.unreadCount p = 9)%Z) by lia.
    repeat (destruct E as [E|E];
            [rewrite E; simpl; repeat split; try lia; discriminate|]).
    rewrite E. simpl. repeat split; try lia; discriminate.
Qed.

(** X13. The badge on the bell is rendered exactly for a positive counter;
    its text is then the counter itself up to 99 and ["99+"] above, so
    between one and three characters.  The "Mark all as read" button is
    rendered with it.  Once [markAllAsRead] has completed, both are gone. *)
Theorem bell_badge_fits :
  (forall c, BellView.badge c = None <-> (c <= 0)%Z)
  /\ (forall c t,
        BellView.badge c = Some t ->
        1 <= String.length t <= 3
        /\ (t = "99+" <-> (99 < c)%Z)
        /\ ((c <= 99)%Z -> t = numberToString c))
  /\ (forall c, BellView.showsMarkAll c = true <-> BellView.badge c <> None)
  /\ (forall s ok,
        let s' := TopNavigation.markAllAsRead (Response ok) s in
        BellView.badge (TopNavigation.unreadCount s') = None
        /\ BellView.showsMarkAll (TopNavigation.unreadCount s') = false).
Proof.
  split; [|split; [|split]].
  - intros c. unfold BellView.badge.
    destruct (Z.ltb_spec 0 c); split; intros; try discriminate; try lia.
    reflexivity.
  - intros c t. unfold BellView.badge.
    destruct (Z.ltb_spec 0 c) as [Hpos|]; [|discriminate].
    destruct (Z.ltb_spec 99 c) as [Hbig|Hsmall]; intros [= <-].
    + simpl. repeat split; try lia.
    + pose proof (up_to_two_digits c ltac:(lia)) as Hlen.
      split; [lia|]. split; [|reflexivity].
      split; [|lia]. intros E. rewrite E in Hlen. simpl in Hlen. lia.
  - intros c. unfold BellView.showsMarkAll, BellView.badge.
    destruct (0 <? c)%Z; split; intros; try discriminate; try reflexivity.
    contradiction.
  - intros s ok. simpl. split; reflexivity.
Qed.

(** * Further properties of the top navigation bar *)

(** ** The list and the counter *)

Lemma id_setRead n :
  Notification.id (TopNavigation.setRead n) = Notification.id n.
Proof. reflexivity. Qed.

Lemma setRead_read n :
  Notification.read n = true -> TopNavigation.setRead n = n.
Proof. destruct n. simpl. now intros ->. Qed.

Lemma unreadIn_cons n l :
  unreadIn (n :: l)
  = (if Notification.read n then 0 else 1) + unreadIn l.
Proof. unfold unreadIn. simpl. now destruct (Notification.read n). Qed.

Lemma mark_absent i l :
  (forall n, In n l -> Notification.id n = i -> Notification.read n = true) ->
  map (fun n => if Notification.id n =? i then TopNavigation.setRead n else n)
    l = l.
Proof.
  induction l as [|x l IH]; simpl; intros H; [reflexivity|].
  rewrite IH by (intros n Hn; apply H; now right). f_equal.
  destruct (String.eqb_spec (Notification.id x) i) as [E|_]; [|reflexivity].
  apply setRead_read. apply H; [now left | exact E].
Qed.

Lemma unreadIn_mark i l :
  unreadIn
    (map (fun n => if Notification.id n =? i then TopNavigation.setRead n
                   else n) l)
  <= unreadIn l.
Proof.
  induction l as [|x l IH]; simpl; [reflexivity|].
  rewrite !unreadIn_cons.
  destruct (Notification.id x =? i); simpl;
    destruct (Notification.read x); lia.
Qed.

Lemma unreadIn_mark_one n l :
  NoDup (map Notification.id l) -> In n l -> Notification.read n = false ->
  S (unreadIn
       (map (fun m => if Notification.id m =? Notification.id n
                      then TopNavigation.setRead m else m) l))
  = unreadIn l.
Proof.
  induction l as [|x l IH]; simpl; intros Hnd HIn Hr; [contradiction|].
  inversion Hnd as [|? ? Hnin Hnd']; subst. rewrite !unreadIn_cons.
  destruct HIn as [->|HIn].
  - rewrite String.eqb_refl. simpl. rewrite Hr.
    rewrite mark_absent; [reflexivity|].
    intros m Hm E. exfalso. apply Hnin. rewrite <- E. now apply in_map.
  - destruct (String.eqb_spec (Notification.id x) (Notification.id n))
      as [E|_].
    + exfalso. apply Hnin. rewrite E. now apply in_map.
    + rewrite <- (IH Hnd' HIn Hr). lia.
Qed.

Lemma unreadIn_all_read l : unreadIn (map TopNavigation.setRead l) = 0.
Proof.
  induction l as [|x l IH]; [reflexivity|].
  simpl. now rewrite unreadIn_cons, IH.
Qed.

(** X14. [markAsRead] changes nothing but read flags: the list keeps its
    notifications in their order, a notification with another id is left as
    it is, every notification with the given id is read afterwards, and no
    notification becomes unread. *)
Theorem markAsRead_sets_only_read_flags
    (i : string) (ok : bool) (s : TopNavigation.State) :
  let s' := TopNavigation.markAsRead i (Response ok) s in
  Forall2
    (fun before after =>
       after = before
       \/ (Notification.id before = i
           /\ after = TopNavigation.setRead before))
    (TopNavigation.notifications s) (TopNavigation.notifications s')
  /\ map Notification.id (TopNavigation.notifications s')
     = map Notification.id (TopNavigation.notifications s)
  /\ (forall n, In n (TopNavigation.notifications s') ->
                Notification.id n = i -> Notification.read n = true)
  /\ unreadIn (TopNavigation.notifications s')
     <= unreadIn (TopNavigation.notifications s).
Proof.
  simpl. split; [|split; [|split]].
  - induction (TopNavigation.notifications s) as [|x l IH]; simpl;
      constructor; [|exact IH].
    destruct (String.eqb_spec (Notification.id x) i); [right | left]; auto.
  - rewrite map_map. apply map_ext. intros n.
    now destruct (Notification.id n =? i).
  - intros n HIn Hi. apply in_map_iff in HIn as [m [<- _]].
    destruct (String.eqb_spec (Notification.id m) i) as [_|Hne];
      [reflexivity|].
    now destruct (Hne Hi).
  - apply unreadIn_mark.
Qed.

(** X15. Used as the dropdown uses it, [markAsRead] keeps the counter equal
    to the number of unread notifications of the list: if they agree, the
    ids of the list are distinct, and the notification is in the list and
    unread, they agree again once the call has completed. *)
Theorem markAsRead_keeps_counter_in_sync
    (n : Notification.t) (ok : bool) (s : TopNavigation.State) :
  inSync s ->
  NoDup (map Notification.id (TopNavigation.notifications s)) ->
  In n (TopNavigation.notifications s) ->
  Notification.read n = false ->
  inSync (TopNavigation.markAsRead (Notification.id n) (Response ok) s).
Proof.
  unfold inSync. intros Hs Hnd HIn Hr. simpl.
  pose proof (unreadIn_mark_one n _ Hnd HIn Hr) as H.
  rewrite Hs. lia.
Qed.

(** X16. [markAsRead] does not look at the notification it is given: for an
    id that is not in the list, or whose notifications are all read, a
    completed call leaves the list as it is and still lowers the counter, so
    a positive counter that agreed with the list is then one too low. *)
Theorem markAsRead_of_read_notification_lowers_counter
    (i : string) (ok : bool) (s : TopNavigation.State) :
  (forall n, In n (TopNavigation.notifications s) ->
             Notification.id n = i -> Notification.read n = true) ->
  let s' := TopNavigation.markAsRead i (Response ok) s in
  TopNavigation.notifications s' = TopNavigation.notifications s
  /\ TopNavigation.unreadCount s'
     = Z.max 0 (TopNavigation.unreadCount s - 1)
  /\ (inSync s -> (0 < TopNavigation.unreadCount s)%Z ->
      TopNavigation.unreadCount s'
      = (Z.of_nat (unreadIn (TopNavigation.notifications s')) - 1)%Z
      /\ ~ inSync s').
Proof.
  intros Habsent. simpl. rewrite (mark_absent _ _ Habsent).
  split; [reflexivity|]. split; [reflexivity|].
  unfold inSync. simpl. intros Hs Hpos. split; lia.
Qed.

(** X17. Once [markAllAsRead] has completed, every notification is read and
    the counter is zero, so the two agree whatever they were before; an
    earlier [markAsRead] makes no difference to the result, and a second
    [markAllAsRead] changes nothing. *)
Theorem markAllAsRead_resets
    (ok : bool) (s : TopNavigation.State) :
  let s' := TopNavigation.markAllAsRead (Response ok) s in
  Forall (fun n => Notification.read n = true) (TopNavigation.notifications s')
  /\ map Notification.id (TopNavigation.notifications s')
     = map Notification.id (TopNavigation.notifications s)
  /\ inSync s'
  /\ (forall i o,
        TopNavigation.markAllAsRead (Response ok)
          (TopNavigation.markAsRead i o s) = s')
  /\ (forall o, TopNavigation.markAllAsRead o s' = s').
Proof.
  simpl. split; [|split; [|split; [|split]]].
  - apply Forall_map, Forall_forall. reflexivity.
  - rewrite map_map. reflexivity.
  - unfold inSync. simpl. now rewrite unreadIn_all_read.
  - intros i [|ok']; [reflexivity|]. unfold TopNavigation.markAllAsRead.
    simpl. f_equal. rewrite map_map. apply map_ext. intros n.
    now destruct (Notification.id n =? i).
  - intros [|ok']; [reflexivity|]. unfold TopNavigation.markAllAsRead.
    simpl. f_equal. rewrite map_map. reflexivity.
Qed.

(** X18. Two [markAsRead] calls may complete in either order: the resulting
    list and counter are the same. *)
Theorem markAsRead_calls_commute
    (i j : string) (o1 o2 : FetchOutcome) (s : TopNavigation.State) :
  TopNavigation.markAsRead i o1 (TopNavigation.markAsRead j o2 s)
  = TopNavigation.markAsRead j o2 (TopNavigation.markAsRead i o1 s).
Proof.
  destruct o1 as [|ok1], o2 as [|ok2]; try reflexivity.
  unfold TopNavigation.markAsRead. simpl. f_equal.
  rewrite !map_map. apply map_ext. intros n.
  destruct (Notification.id n =? i) eqn:Ei,
           (Notification.id n =? j) eqn:Ej;
    simpl; rewrite ?Ei, ?Ej; reflexivity.
Qed.

(** X19. A notification pushed over the socket goes to the front of the
    list and raises the counter by one, so the counter stays equal to the
    number of unread notifications exactly when the pushed notification is
    unread. *)
Theorem new_notification_keeps_counter_in_sync
    (n : Notification.t) (s : TopNavigation.State) :
  inSync s ->
  let s' := TopNavigation.handleNewNotification n s in
  TopNavigation.notifications s' = n :: TopNavigation.notifications s
  /\ TopNavigation.unreadCount s' = (TopNavigation.unreadCount s + 1)%Z
  /\ (inSync s' <-> Notification.read n = false).
Proof.
  unfold inSync. intros Hs. simpl. split; [reflexivity|].
  split; [reflexivity|].
  rewrite unreadIn_cons, Hs.
  destruct (Notification.read n); split; intros H; try lia; discriminate.
Qed.

(** ** getPageInfo *)

Lemma prefix_iff (a h : string) :
  String.prefix a h = true <-> exists b, h = (a ++ b)%string.
Proof.
  revert h. induction a as [|x a IH]; intros h.
  - split; [intros _; now exists h | intros _; now destruct h].
  - destruct h as [|y h]; simpl.
    + split; [discriminate | intros [b Hb]; discriminate].
    + destruct (Ascii.ascii_dec x y) as [->|Hne].
      * rewrite IH. split; intros [b Hb]; exists b; congruence.
      * split; [discriminate | intros [b Hb]; congruence].
Qed.

Lemma includes_unfold (needle hay : string) :
  includes needle hay
  = if String.prefix needle hay then true
    else match hay with
         | EmptyString => false
         | String _ rest => includes needle rest
         end.
Proof. now destruct hay. Qed.

(** [includes] finds exactly the substrings. *)
Lemma includes_iff (needle hay : string) :
  includes needle hay = true
  <-> exists pre post, hay = (pre ++ needle ++ post)%string.
Proof.
  induction hay as [|y hay IH]; rewrite includes_unfold.
  - destruct (String.prefix needle "") eqn:Hp.
    + apply prefix_iff in Hp as [b Hb]. split; [|reflexivity].
      intros _. now exists "", b.
    + split; [discriminate|]. intros [pre [post H]].
      destruct pre; [|discriminate]. simpl in H.
      assert (Hp' : String.prefix needle "" = true)
        by (apply prefix_iff; now exists post).
      congruence.
  - destruct (String.prefix needle (String y hay)) eqn:Hp.
    + apply prefix_iff in Hp as [b Hb]. split; [|reflexivity].
      intros _. now exists "", b.
    + rewrite IH. split.
      * intros [pre [post ->]]. now exists (String y pre), post.
      * intros [pre [post H]]. destruct pre as [|z pre]; simpl in H.
        -- assert (Hp' : String.prefix needle (String y hay) = true)
             by (apply prefix_iff; now exists post).
           congruence.
        -- injection H as _ ->. now exists pre, post.
Qed.

Lemma pathIncludes_iff (path part : string) :
  part <> "" ->
  pathIncludes (Some path) part = true
  <-> exists pre post, path = (pre ++ part ++ post)%string.
Proof.
  intros Hpart. unfold pathIncludes, truthy.
  destruct (String.eqb_spec path "") as [->|_].
  - change (negb true) with false. rewrite andb_false_l.
    split; [discriminate|]. intros [pre [post H]]. exfalso.
    destruct pre; [|discriminate]. destruct part; [|discriminate].
    now apply Hpart.
  - change (negb false) with true. rewrite andb_true_l.
    apply includes_iff.
Qed.

(** X20. The title that [getPageInfo] returns is never empty, whatever the
    socket context, the props and the pathname are: an absent or empty
    title or name falls back to a fixed text, and a channel title starts
    with [#]. *)
Theorem page_title_never_empty
    (pageContext : option PageContext.t)
    (currentConversation : option ConversationProp.t)
    (currentServer : option ServerProp.t)
    (currentChannel : option ChannelProp.t)
    (pathname : option string) :
  PageInfo.title
    (getPageInfo pageContext currentConversation currentServer
       currentChannel pathname) <> "".
Proof.
  unfold getPageInfo.
  destruct pageContext as [ctx|]; simpl.
  { apply or_default_nonempty. discriminate. }
  destruct currentConversation as [conv|]; simpl.
  { apply or_default_nonempty. discriminate. }
  destruct currentServer as [server|], currentChannel as [channel|];
    simpl; try discriminate;
    destruct (pathIncludes pathname "/servers/");
    try destruct (pathIncludes pathname "/conversations/");
    simpl; discriminate.
Qed.

(** X21. The sources of the page information are ranked: the socket
    context first, then the conversation prop, then server and channel
    together.  With any of them present the pathname plays no part, and
    with the socket context present the props play none either. *)
Theorem page_info_sources_are_ranked
    (pageContext : option PageContext.t)
    (currentConversation : option ConversationProp.t)
    (currentServer : option ServerProp.t)
    (currentChannel : option ChannelProp.t) :
  (pageContext <> None
   \/ currentConversation <> None
   \/ (currentServer <> None /\ currentChannel <> None) ->
   forall pathname pathname',
     getPageInfo pageContext currentConversation currentServer
       currentChannel pathname
     = getPageInfo pageContext currentConversation currentServer
         currentChannel pathname')
  /\ (pageContext <> None ->
      forall conv server channel pathname,
        getPageInfo pageContext conv server channel pathname
        = getPageInfo pageContext currentConversation currentServer
            currentChannel None)
  /\ (pageContext = None -> currentConversation <> None ->
      forall server channel pathname,
        getPageInfo None currentConversation server channel pathname
        = getPageInfo None currentConversation None None None).
Proof.
  split; [|split].
  - intros H pathname pathname'. unfold getPageInfo.
    destruct pageContext; [reflexivity|].
    destruct currentConversation; [reflexivity|].
    destruct currentServer, currentChannel; try reflexivity;
      destruct H as [H|[H|[H1 H2]]]; congruence.
  - intros H conv server channel pathname.
    destruct pageContext; [reflexivity | congruence].
  - intros _ H server channel pathname.
    destruct currentConversation; [reflexivity | congruence].
Qed.

(** X22. Without socket context, conversation prop and server-with-channel
    props, the pathname decides: a path containing [/servers/] gives the
    loading server page, also when it contains [/conversations/] as well;
    otherwise a path containing [/conversations/] gives the loading
    conversation page; any other path, or none, gives the welcome page. *)
Theorem page_info_falls_back_on_pathname
    (currentServer : option ServerProp.t)
    (currentChannel : option ChannelProp.t) (path : string) :
  currentServer = None \/ currentChannel = None ->
  let info :=
    getPageInfo None None currentServer currentChannel (Some path) in
  let inServers :=
    exists pre post, path = (pre ++ "/servers/" ++ post)%string in
  let inConversations :=
    exists pre post, path = (pre ++ "/conversations/" ++ post)%string in
  (inServers ->
   info = PageInfo.mk Hash "Server Channel" "Loading..." None)
  /\ (~ inServers -> inConversations ->
      info = PageInfo.mk MessageCircle "Conversation" "Loading..." None)
  /\ (~ inServers -> ~ inConversations ->
      info = PageInfo.mk Hash "Discord Clone" "Welcome" None)
  /\ getPageInfo None None currentServer currentChannel None
     = PageInfo.mk Hash "Discord Clone" "Welcome" None.
Proof.
  intros Hmissing. cbv zeta.
  assert (Hs : "/servers/" <> "") by discriminate.
  assert (Hc : "/conversations/" <> "") by discriminate.
  pose proof (pathIncludes_iff path _ Hs) as Hsi.
  pose proof (pathIncludes_iff path _ Hc) as Hci.
  assert (E : getPageInfo None None currentServer currentChannel (Some path)
              = if pathIncludes (Some path) "/servers/"
                then PageInfo.mk Hash "Server Channel" "Loading..." None
                else if pathIncludes (Some path) "/conversations/"
                then PageInfo.mk MessageCircle "Conversation" "Loading..."
                       None
                else PageInfo.mk Hash "Discord Clone" "Welcome" None).
  { unfold getPageInfo.
    destruct currentServer, currentChannel; try reflexivity.
    destruct Hmissing; discriminate. }
  rewrite E.
  split; [|split; [|split]].
  - intros H. apply Hsi in H. now rewrite H.
  - intros Hn H. apply Hci in H. rewrite H.
    destruct (pathIncludes (Some path) "/servers/") eqn:F; [|reflexivity].
    exfalso. apply Hn. now apply Hsi.
  - intros Hn Hn'.
    destruct (pathIncludes (Some path) "/servers/") eqn:F;
      [exfalso; apply Hn; now apply Hsi|].
    destruct (pathIncludes (Some path) "/conversations/") eqn:G;
      [exfalso; apply Hn'; now apply Hci | reflexivity].
  - unfold getPageInfo.
    destruct currentServer, currentChannel; try reflexivity.
    destruct Hmissing; discriminate.
Qed.

(** ** The further statements at concrete inputs *)

Lemma unreadCount_is_number_counted_witness :
  Z.of_nat
    (countedFor (Some carol) "c1"
       (twoChats ++ [directNote "3" "c1" alice "pa"]))
  = 2%Z.
Proof.
  exact (eq_sym
           (unreadCount_is_number_counted
              (twoChats ++ [directNote "3" "c1" alice "pa"]) (Some carol)
              (ConversationParticipant.mk "c1" "pa" "Alice" "/img/alice.png"
                 2 "DIRECT_MESSAGE")
              (or_introl eq_refl))).
Defined.

Lemma summarised_iff_counted_witness :
  In "c2"
    (map ConversationParticipant.conversationId
       (processNotifications twoChats (Some carol))).
Proof.
  apply (proj1 (summarised_iff_counted twoChats (Some carol))).
  exists (directNote "2" "c2" bob "pb").
  split; [right; left; reflexivity | reflexivity].
Defined.

Lemma summary_made_from_first_counted_witness :
  In (ConversationParticipant.mk "c1" "" "Team" "" 2 "GROUP_MESSAGE")
    (processNotifications
       ([directNote "9" "c1" (Profile.mk "Carol" "/img/carol.png") "pc"]
        ++ groupNote "1" "c1" (Some "Team")
        :: [directNote "2" "c1" alice "pa"])
       (Some carol)).
Proof.
  destruct (summary_made_from_first_counted (Some carol)
              [directNote "9" "c1" (Profile.mk "Carol" "/img/carol.png") "pc"]
              [directNote "2" "c1" alice "pa"]
              (groupNote "1" "c1" (Some "Team")) "c1" eq_refl)
    as [e [He HIn]].
  - intros n' [<-|[]]. discriminate.
  - cbv in He. injection He as <-. exact HIn.
Defined.

Lemma counts_do_not_depend_on_order_witness :
  In "c1"
    (map ConversationParticipant.conversationId
       (processNotifications twoChats (Some carol)))
  <-> In "c1"
        (map ConversationParticipant.conversationId
           (processNotifications
              [directNote "2" "c2" bob "pb"; directNote "1" "c1" alice "pa"]
              (Some carol))).
Proof.
  apply (proj1 (counts_do_not_depend_on_order twoChats
                  [directNote "2" "c2" bob "pb";
                   directNote "1" "c1" alice "pa"]
                  (Some carol) (perm_swap _ _ []))).
Defined.

Lemma displayed_summaries_witness :
  distinctPositive
    (Bar.participants
       (Bar.run (Bar.mkState [] None [] None None [] [] [] [])
          [Bar.HooksChanged twoChats (Some carol); Bar.Click "c1"])).
Proof.
  apply (proj2 displayed_summaries_distinct_and_positive).
  split; constructor.
Defined.

Lemma displayed_summaries_come_from_rebuild_witness :
  In (ConversationParticipant.mk "c2" "pb" "Bob" "/img/bob.png" 1
        "DIRECT_MESSAGE")
    (processNotifications twoChats (Some carol)).
Proof.
  apply (displayed_summaries_come_from_rebuild twoChats (Some carol)
           [Bar.Click "c1"; Bar.SocketConnected;
            Bar.SocketMarkedRead "c1" "pa"; Bar.Click "c1"]
           eq_refl).
  left. reflexivity.
Defined.

Lemma navigations_are_accounted_for_witness :
  exists c,
    In c (Bar.posted
            (Bar.run (Bar.mounted twoChats (Some carol))
               [Bar.Click "c1"; Bar.Settled 0 (Response true)]))
    /\ "/conversations/c1" = Bar.conversationRoute c.
Proof.
  apply (navigations_are_accounted_for twoChats (Some carol)
           [Bar.Click "c1"; Bar.Settled 0 (Response true)]).
  left. reflexivity.
Defined.

Lemma socket_notification_closure_witness :
  let s := Bar.mounted [] (Some carol) in
  let s' :=
    Bar.run (Bar.registerListeners s)
      [Bar.HooksChanged twoChats (Some carol)] in
  Bar.notifications s' = twoChats
  /\ Bar.participants (Bar.step s' Bar.SocketNotification)
     = processNotifications [] (Some carol).
Proof.
  split; [reflexivity|].
  apply (socket_notification_uses_registration_closure
           (Bar.mounted [] (Some carol))
           [Bar.HooksChanged twoChats (Some carol)] eq_refl).
Defined.

Lemma successful_open_witness :
  let s := Bar.mounted twoChats (Some carol) in
  Bar.pushed
    (Bar.settle 0 (Response true) (Bar.handleConversationClick (Bar.currentRender s) "c1" s))
  = ["/conversations/c1"].
Proof.
  pose proof (successful_open_keeps_removal
                (Bar.mounted twoChats (Some carol)) "c1") as H.
  simpl in H. destruct H as [_ [_ [H _]]]; [discriminate | exact H].
Defined.

Lemma own_marked_read_event_witness :
  let opened :=
    Bar.handleConversationClick
      (Bar.currentRender (Bar.mounted twoChats (Some carol))) "c1"
      (Bar.mounted twoChats (Some carol)) in
  Bar.handleConversationMarkRead "c1" "pa" opened = opened.
Proof.
  pose proof (own_marked_read_event_is_noop
                (Bar.mounted twoChats (Some carol)) "c1" "pa") as H.
  simpl in H. destruct H as [H _]; [discriminate | exact H].
Defined.

Lemma summary_badge_fits_witness :
  let p :=
    ConversationParticipant.mk "c1" "pa" "Alice" "/img/alice.png" 1
      "DIRECT_MESSAGE" in
  1 <= String.length (BarView.badgeText p) <= 2
  /\ Some "1" = Some (BarView.badgeText p).
Proof.
  intros p.
  destruct (summary_badge_fits twoChats (Some carol) p (or_introl eq_refl))
    as [H1 [_ [_ H4]]].
  split; [exact H1|]. apply H4. simpl. lia.
Defined.

Lemma bell_badge_fits_witness :
  1 <= String.length "99+" <= 3.
Proof.
  destruct bell_badge_fits as [_ [H _]].
  apply (H 100%Z "99+" eq_refl).
Defined.

Lemma markAsRead_sets_only_read_flags_witness :
  Notification.read
    (TopNavigation.setRead (directNote "1" "c1" alice "pa")) = true.
Proof.
  destruct (markAsRead_sets_only_read_flags "1" true
              (TopNavigation.mkState twoChats 2)) as [_ [_ [H _]]].
  apply H; [left; reflexivity | reflexivity].
Defined.

Lemma markAsRead_keeps_counter_in_sync_witness :
  inSync
    (TopNavigation.markAsRead "1" (Response true)
       (TopNavigation.mkState twoChats 2)).
Proof.
  apply (markAsRead_keeps_counter_in_sync (directNote "1" "c1" alice "pa")
           true (TopNavigation.mkState twoChats 2)).
  - reflexivity.
  - simpl. constructor; [intros [H|[]]; discriminate|].
    constructor; [intros []|constructor].
  - left. reflexivity.
  - reflexivity.
Defined.

Lemma markAsRead_of_read_notification_witness :
  TopNavigation.unreadCount
    (TopNavigation.markAsRead "zz" (Response true)
       (TopNavigation.mkState twoChats 2))
  = 1%Z
  /\ ~ inSync
         (TopNavigation.markAsRead "zz" (Response true)
            (TopNavigation.mkState twoChats 2)).
Proof.
  pose proof (markAsRead_of_read_notification_lowers_counter "zz" true
                (TopNavigation.mkState twoChats 2)) as H.
  simpl in H. destruct H as [_ [H1 H2]].
  - intros n [<-|[<-|[]]]; discriminate.
  - split; [exact H1|]. apply H2; [reflexivity | lia].
Defined.

Lemma new_notification_witness :
  inSync
    (TopNavigation.handleNewNotification (directNote "1" "c1" alice "pa")
       (TopNavigation.mkState [] 0)).
Proof.
  apply (proj2 (proj2 (new_notification_keeps_counter_in_sync
                         (directNote "1" "c1" alice "pa")
                         (TopNavigation.mkState [] 0) eq_refl))).
  reflexivity.
Defined.

Lemma page_info_sources_witness :
  let ctx := Some (PageContext.mk (Some "Users") None None None) in
  getPageInfo ctx None None None (Some "/servers/s1")
  = getPageInfo ctx None None None (Some "/conversations/c1").
Proof.
  apply (proj1 (page_info_sources_are_ranked
                  (Some (PageContext.mk (Some "Users") None None None))
                  None None None)).
  left. discriminate.
Defined.

Lemma page_info_pathname_witness :
  getPageInfo None None None None (Some "/servers/s1/conversations/c1")
  = PageInfo.mk Hash "Server Channel" "Loading..." None.
Proof.
  apply (proj1 (page_info_falls_back_on_pathname None None
                  "/servers/s1/conversations/c1" (or_introl eq_refl))).
  exists "", "s1/conversations/c1". reflexivity.
Defined.
